(** * Math OCR: content location, classification, dispatch and batch runs

    A shallow embedding of [scripts/math-ocr-v2.py] (the one-shot hybrid
    OCR, class [HybridOCR]) and of [scripts/math-ocr-service.py] (the
    resident service, class [OCRService]).

    Python integers are [Z] and Python floats are the kernel's binary64
    floats; [str] is [string], one character per code point below 256; a
    [dict] keyed by file name is a [gmap string _];
    the stateful objects are records threaded through a state-and-exception
    monad; the OCR engines, the image decoder and the file system are the
    fields of an environment record. *)

From Stdlib Require Import ZArith QArith List Bool Ascii String Floats Uint63.
From Stdlib Require Import Sorting.Sorted Structures.OrdersEx.
From stdpp Require Import base decidable option list sorting gmap strings fin_maps.

Import ListNotations.
#[local] Set Warnings "-clear-no-such-hyp".
Local Open Scope string_scope.
Local Open Scope Z_scope.

(** * Part I: the programs *)

(** ** Python built-ins used by the scripts *)

Module Py.

(** Exceptions.  [Exception cls msg] is an instance of [Exception], of
    class [cls] and with [str(e) = msg]; [KeyboardInterrupt] stands for
    the system-exiting exceptions, which derive from [BaseException]
    only and pass through [except Exception]. *)
Inductive exception_class :=
  | RuntimeError
  | FileNotFoundError
  | AttributeError
  | TypeError
  | OtherError.

Inductive exn :=
  | Exception (cls : exception_class) (msg : string)
  | KeyboardInterrupt.

(** The outcome of a call: a value, or a raised exception. *)
Inductive res (A : Type) :=
  | Ok (a : A)
  | Raise (e : exn).
Arguments Ok {A} a.
Arguments Raise {A} e.

(** A computation over a store [St]: the store a raise leaves behind is
    kept, as in Python. *)
Definition M (St A : Type) : Type := St -> res A * St.

Definition ret {St A} (a : A) : M St A := fun s => (Ok a, s).

Definition bind {St A B} (c : M St A) (k : A -> M St B) : M St B :=
  fun s =>
    match c s with
    | (Ok a, s1) => k a s1
    | (Raise e, s1) => (Raise e, s1)
    end.

Definition raise {St A} (e : exn) : M St A := fun s => (Raise e, s).

Definition lift {St A} (r : res A) : M St A := fun s => (r, s).

Definition get {St} : M St St := fun s => (Ok s, s).

Definition modify {St} (f : St -> St) : M St unit := fun s => (Ok tt, f s).

(** [try: body / except Exception as e: handler (str(e))]. *)
Definition try_except {St A} (body : M St A) (handler : string -> M St A)
    : M St A :=
  fun s =>
    match body s with
    | (Ok a, s1) => (Ok a, s1)
    | (Raise (Exception _ msg), s1) => handler msg s1
    | (Raise KeyboardInterrupt, s1) => (Raise KeyboardInterrupt, s1)
    end.

(** [try: body / finally: fin]. *)
Definition try_finally {St A} (body : M St A) (fin : M St unit) : M St A :=
  fun s =>
    match body s with
    | (r, s1) =>
        match fin s1 with
        | (Ok _, s2) => (r, s2)
        | (Raise e, s2) => (Raise e, s2)
        end
    end.

Declare Scope py_scope.
Delimit Scope py_scope with py.
Notation "x <- c1 ;; c2" := (bind c1 (fun x => c2))
  (at level 100, c1 at next level, right associativity) : py_scope.
Notation "c1 ;; c2" := (bind c1 (fun _ => c2))
  (at level 100, right associativity) : py_scope.

(** [for x in xs: acc = body x acc], stopping at the first raise. *)
Fixpoint for_each {St A B} (xs : list A) (body : A -> B -> M St B) (acc : B)
    : M St B :=
  match xs with
  | [] => ret acc
  | x :: xs' => bind (body x acc) (for_each xs' body)
  end.

(** [range(n)]. *)
Definition range (n : Z) : list Z := map Z.of_nat (seq 0 (Z.to_nat n)).

(** [enumerate(xs, start)]. *)
Fixpoint enumerate {A} (xs : list A) (start : nat) : list (nat * A) :=
  match xs with
  | [] => []
  | x :: xs' => (start, x) :: enumerate xs' (S start)
  end.

(** [int / int]: both operands convert to binary64 without rounding up to
    [2^53] in absolute value, which image coordinates never exceed, and
    the quotient is rounded once. *)
Definition float_of_int (z : Z) : float :=
  if z <? 0 then PrimFloat.opp (PrimFloat.of_uint63 (Uint63.of_Z (- z)))
  else PrimFloat.of_uint63 (Uint63.of_Z z).

Definition true_div (a b : Z) : float :=
  PrimFloat.div (float_of_int a) (float_of_int b).

(** [c.isspace()] on a code point below 256: TAB..CR, FS..US, SPACE, NEL
    and NBSP. *)
Definition isspace (c : ascii) : bool :=
  let n := N_of_ascii c in
  (((9 <=? n) && (n <=? 13)) || ((28 <=? n) && (n <=? 32))
   || (n =? 133) || (n =? 160))%N.

Fixpoint lstrip (s : string) : string :=
  match s with
  | EmptyString => EmptyString
  | String c s' => if isspace c then lstrip s' else s
  end.

Fixpoint rstrip (s : string) : string :=
  match s with
  | EmptyString => EmptyString
  | String c s' =>
      match rstrip s' with
      | EmptyString => if isspace c then EmptyString else String c EmptyString
      | r => String c r
      end
  end.

(** [s.strip()]. *)
Definition strip (s : string) : string := rstrip (lstrip s).

(** [not s]: the empty string is falsy. *)
Definition is_empty (s : string) : bool :=
  match s with
  | EmptyString => true
  | _ => false
  end.

(** [c.isdigit()] on a code point below 256: 0..9 and the superscripts
    two, three and one. *)
Definition isdigit_char (c : ascii) : bool :=
  let n := N_of_ascii c in
  (((48 <=? n) && (n <=? 57)) || (n =? 178) || (n =? 179) || (n =? 185))%N.

Fixpoint all_chars (p : ascii -> bool) (s : string) : bool :=
  match s with
  | EmptyString => true
  | String c s' => p c && all_chars p s'
  end.

(** [s.isdigit()]: false on the empty string. *)
Definition isdigit (s : string) : bool :=
  negb (is_empty s) && all_chars isdigit_char s.

(** [s.replace(c, empty)] for a one-character [c] and the empty string. *)
Fixpoint remove_char (c : ascii) (s : string) : string :=
  match s with
  | EmptyString => EmptyString
  | String d s' =>
      if Ascii.eqb c d then remove_char c s' else String d (remove_char c s')
  end.

(** [str(x)] inside an f-string, for a value that may be [None]. *)
Definition fmt (o : option string) : string :=
  match o with
  | Some s => s
  | None => "None"
  end.

(** A list compared as Python compares sequences: at the first differing
    element, a proper prefix being smaller. *)
Fixpoint list_compare (xs ys : list string) : comparison :=
  match xs, ys with
  | [], [] => Eq
  | [], _ :: _ => Lt
  | _ :: _, [] => Gt
  | x :: xs', y :: ys' =>
      match String.compare x y with
      | Eq => list_compare xs' ys'
      | c => c
      end
  end.

End Py.

Import Py.
Local Open Scope py_scope.

(** ** Paths *)

Module Pathlib.

(** A [pathlib] path is the list of its components; two paths compare as
    these lists do. *)
Definition Path : Type := list string.

(** [p.name]: the final component. *)
Definition name (p : Path) : string := List.last p "".

(** [str(p)]. *)
Definition str (p : Path) : string := String.concat "/" p.

Definition path_leb (p q : Path) : bool :=
  match list_compare p q with
  | Gt => false
  | _ => true
  end.

Definition path_le (p q : Path) : Prop := path_leb p q = true.

Definition path_le_dec (p q : Path) : Decision (path_le p q) :=
  bool_dec (path_leb p q) true.

(** [sorted(paths)]: Python sorts by merging runs; on paths, where
    comparing equal means being equal, the sorted list is unique. *)
Definition sorted (ps : list Path) : list Path :=
  @merge_sort Path path_le path_le_dec ps.

End Pathlib.

(** ** The content classifier *)

Module Classifier.

#[local] Set Warnings "-inexact-float".

(** [is_simple_content(content_width, content_height, area_threshold,
    max_dimension)], both source files. *)
Definition is_simple_content
    (content_width content_height area_threshold max_dimension : Z) : bool :=
  let area := content_width * content_height in
  if content_height =? 0 then true
  else
    let aspect_ratio := true_div content_width content_height in
    if (2.5 <? aspect_ratio)%float then false
    else if (aspect_ratio <? 0.35)%float then false
    else if (area <? area_threshold)
            && (0.35 <=? aspect_ratio)%float && (aspect_ratio <=? 2.0)%float
    then true
    else if (content_width <? max_dimension)
            && (content_height <? max_dimension) then
      if (0.35 <=? aspect_ratio)%float && (aspect_ratio <=? 2.0)%float then true
      else false
    else false.

(** The call with the default keyword arguments
    [area_threshold=5000, max_dimension=80]. *)
Definition is_simple_content_default (content_width content_height : Z) : bool :=
  is_simple_content content_width content_height 5000 80.

End Classifier.

(** ** Images and the content locator *)

Module Locator.

Inductive mode := L | RGB.

(** A decoded image: its mode, [img.size] and the pixel access object
    [img.load()], read as [pixels[x, y]]. *)
Record Image := mk_image {
  img_mode : mode;
  img_size : Z * Z;
  img_load : Z -> Z -> Z
}.

Definition is_RGB (m : mode) : bool :=
  match m with
  | RGB => true
  | L => false
  end.

(** [img.convert(m)]. *)
Definition convert (m : mode) (img : Image) : Image :=
  {| img_mode := m; img_size := img_size img; img_load := img_load img |}.

(** [if img.mode != "RGB": img = img.convert("RGB")]. *)
Definition as_RGB (img : Image) : Image :=
  if is_RGB (img_mode img) then img else convert RGB img.

(** [img.crop((x0, y0, x1, y1))]. *)
Definition crop (img : Image) (x0 y0 x1 y1 : Z) : Image :=
  {| img_mode := img_mode img;
     img_size := (x1 - x0, y1 - y0);
     img_load := fun x y => img_load img (x0 + x) (y0 + y) |}.

(** The running content bounds [min_x, min_y, max_x, max_y]. *)
Record bounds := mk_bounds { min_x : Z; min_y : Z; max_x : Z; max_y : Z }.

(** The body of the inner loop, at pixel [(x, y)]. *)
Definition scan_pixel (pixels : Z -> Z -> Z) (threshold y : Z)
    (b : bounds) (x : Z) : bounds :=
  if pixels x y <? threshold then
    {| min_x := Z.min (min_x b) x; min_y := Z.min (min_y b) y;
       max_x := Z.max (max_x b) x; max_y := Z.max (max_y b) y |}
  else b.

(** The body of the outer loop: row [y]. *)
Definition scan_row (pixels : Z -> Z -> Z) (threshold w : Z)
    (b : bounds) (y : Z) : bounds :=
  fold_left (scan_pixel pixels threshold y) (range w) b.

(** Both loops, from [min_x, min_y, max_x, max_y = w, h, 0, 0]. *)
Definition content_bounds (img : Image) (threshold : Z) : bounds :=
  let '(w, h) := img_size img in
  fold_left (scan_row (img_load img) threshold w) (range h)
    {| min_x := w; min_y := h; max_x := 0; max_y := 0 |}.

(** [crop_to_content] once the image is open. *)
Definition crop_image (img : Image) (padding threshold : Z)
    : option Image * (Z * Z * Z * Z) :=
  let '(w, h) := img_size img in
  let b := content_bounds img threshold in
  if (max_x b <=? min_x b) || (max_y b <=? min_y b) then (None, (0, 0, 0, 0))
  else
    let raw_w := max_x b - min_x b in
    let raw_h := max_y b - min_y b in
    let crop_min_x := Z.max 0 (min_x b - padding) in
    let crop_min_y := Z.max 0 (min_y b - padding) in
    let crop_max_x := Z.min w (max_x b + padding) in
    let crop_max_y := Z.min h (max_y b + padding) in
    let cropped := crop img crop_min_x crop_min_y crop_max_x crop_max_y in
    (Some cropped,
     (raw_w, raw_h, crop_max_x - crop_min_x, crop_max_y - crop_min_y)).

End Locator.

Import Locator.

(** ** The collaborators: engines, image decoder and file system *)

(** The engine objects held by the services. *)
Inductive LatexOCR := LatexOCR_model.
Inductive Reader := Reader_model.

(** A text region of [readtext]: [(bbox, text, confidence)].  A
    confidence is a finite float; it is written as the rational it
    denotes, since the scripts only compare confidences. *)
Definition region : Type := list (Z * Z) * string * Q.

Record Env := mk_env {
  (** the import probes *)
  PIX2TEX_AVAILABLE : bool;
  EASYOCR_AVAILABLE : bool;
  (** [LatexOCR()] and [easyocr.Reader(["en"], ...)] *)
  new_LatexOCR : res LatexOCR;
  new_Reader : res Reader;
  (** [model(img)] and [reader.readtext(path of the saved img)] *)
  call_LatexOCR : LatexOCR -> Image -> res string;
  readtext : Reader -> Image -> res (list region);
  (** [Image.open(path)], with the luminance of each pixel *)
  Image_open : string -> res Image;
  (** [Path(directory).exists()] and [Path(directory).glob(pattern)] *)
  path_exists : string -> bool;
  glob : string -> string -> list Pathlib.Path
}.

(** [crop_to_content(image_path, padding, threshold)]. *)
Definition crop_to_content (E : Env) (image_path : string) (padding threshold : Z)
    : res (option Image * (Z * Z * Z * Z)) :=
  match Image_open E image_path with
  | Raise e => Raise e
  | Ok opened => Ok (crop_image (convert L opened) padding threshold)
  end.

(** ** Results *)

(** The dictionary returned by [ocr_image]; a key that a branch leaves
    out is [None]. *)
Record OcrResult := mk_result {
  success : bool;
  latex : string;
  file : string;
  error : option string;
  method : string;
  content_size : option (Z * Z);
  is_simple : option bool
}.

(** The dictionary returned by [ocr_directory]. *)
Record BatchReport := mk_report {
  results : gmap string string;
  count : Z;
  success_count : Z;
  simple_count : Z;
  complex_count : Z;
  errors : list (string * option string)
}.

(** The locals of the per-file loop. *)
Record loop_vars := mk_vars {
  v_results : gmap string string;
  v_errors : list (string * option string);
  v_simple_count : Z;
  v_complex_count : Z
}.

Definition loop_start : loop_vars :=
  {| v_results := ∅; v_errors := []; v_simple_count := 0; v_complex_count := 0 |}.

Definition empty_report : BatchReport :=
  {| results := ∅; count := 0; success_count := 0; simple_count := 0;
     complex_count := 0; errors := [] |}.

Definition report_of (v : loop_vars) : BatchReport :=
  {| results := v_results v;
     count := Z.of_nat (size (v_results v));
     success_count :=
       Z.of_nat (size (v_results v)) - Z.of_nat (length (v_errors v));
     simple_count := v_simple_count v;
     complex_count := v_complex_count v;
     errors := v_errors v |}.

(** [result.get("is_simple")] as a condition. *)
Definition truthy (o : option bool) : bool :=
  match o with
  | Some b => b
  | None => false
  end.

(** The body of the per-file loop after [ocr_image] returned. *)
Definition record_result (fname : string) (result : OcrResult) (v : loop_vars)
    : loop_vars :=
  if success result then
    let results' := <[fname := latex result]> (v_results v) in
    if truthy (is_simple result) then
      {| v_results := results'; v_errors := v_errors v;
         v_simple_count := v_simple_count v + 1;
         v_complex_count := v_complex_count v |}
    else
      {| v_results := results'; v_errors := v_errors v;
         v_simple_count := v_simple_count v;
         v_complex_count := v_complex_count v + 1 |}
  else
    {| v_results :=
         <[fname := "[ERROR: " +:+ fmt (error result) +:+ "]"]> (v_results v);
       v_errors := v_errors v ++ [(fname, error result)];
       v_simple_count := v_simple_count v;
       v_complex_count := v_complex_count v |}.

(** ** Selecting the text of the most confident region *)

Definition Qltb (a b : Q) : bool := negb (Qle_bool b a).

(** [texts.sort(key=lambda x: x[1], reverse=True)]: a stable sort, larger
    keys first, equal keys in their original order. *)
Fixpoint insert_desc (x : string * Q) (l : list (string * Q)) : list (string * Q) :=
  match l with
  | [] => [x]
  | y :: l' => if Qltb (snd x) (snd y) then y :: insert_desc x l' else x :: l
  end.

Definition sort_desc (l : list (string * Q)) : list (string * Q) :=
  fold_right insert_desc [] l.

(** The lines of [ocr_simple] after [readtext]. *)
Definition best_text (result : list region) : string :=
  match result with
  | [] => ""
  | _ :: _ =>
      let texts := map (fun r : region => (snd (fst r), snd r)) result in
      let texts := sort_desc texts in
      match texts with
      | t :: _ => fst t
      | [] => ""
      end
  end.

(** ** [math-ocr-v2.py]: the one-shot hybrid OCR *)

Module V2.

(** The attributes of a [HybridOCR] object. *)
Record HybridOCR := mk_ocr {
  pix2tex_model : option LatexOCR;
  easyocr_reader : option Reader;
  pix2tex_initialized : bool;
  easyocr_initialized : bool
}.

(** What can be observed of the object, in order: the lines it writes
    to [stderr] and its calls of [clear_gpu_memory]; the accelerator's
    memory figures are not kept. *)
Inductive event :=
  | LoadingPix2tex
  | Pix2texReady
  | LoadingEasyOCR
  | EasyOCRReady
  | CleaningUp
  | ClearGpuMemory
  | EasyOCREmpty
  | Processing (i total : nat) (fname : string).

Record world := mk_world { self : HybridOCR; trace : list event }.

Definition emit (ev : event) : M world unit :=
  modify (fun w => {| self := self w; trace := trace w ++ [ev] |}).

Definition update (f : HybridOCR -> HybridOCR) : M world unit :=
  modify (fun w => {| self := f (self w); trace := trace w |}).

(** [HybridOCR.__init__]. *)
Definition init : HybridOCR :=
  {| pix2tex_model := None; easyocr_reader := None;
     pix2tex_initialized := false; easyocr_initialized := false |}.

Definition set_pix2tex_model (m : option LatexOCR) (o : HybridOCR) : HybridOCR :=
  {| pix2tex_model := m; easyocr_reader := easyocr_reader o;
     pix2tex_initialized := pix2tex_initialized o;
     easyocr_initialized := easyocr_initialized o |}.

Definition set_easyocr_reader (r : option Reader) (o : HybridOCR) : HybridOCR :=
  {| pix2tex_model := pix2tex_model o; easyocr_reader := r;
     pix2tex_initialized := pix2tex_initialized o;
     easyocr_initialized := easyocr_initialized o |}.

Definition set_pix2tex_initialized (b : bool) (o : HybridOCR) : HybridOCR :=
  {| pix2tex_model := pix2tex_model o; easyocr_reader := easyocr_reader o;
     pix2tex_initialized := b;
     easyocr_initialized := easyocr_initialized o |}.

Definition set_easyocr_initialized (b : bool) (o : HybridOCR) : HybridOCR :=
  {| pix2tex_model := pix2tex_model o; easyocr_reader := easyocr_reader o;
     pix2tex_initialized := pix2tex_initialized o;
     easyocr_initialized := b |}.

(** [_ensure_pix2tex]. *)
Definition ensure_pix2tex (E : Env) : M world unit :=
  w <- get ;;
  if pix2tex_initialized (self w) then ret tt
  else if negb (PIX2TEX_AVAILABLE E) then
    raise (Exception RuntimeError "pix2tex not available")
  else
    emit LoadingPix2tex ;;
    m <- lift (new_LatexOCR E) ;;
    update (set_pix2tex_model (Some m)) ;;
    update (set_pix2tex_initialized true) ;;
    emit Pix2texReady.

(** [_ensure_easyocr]. *)
Definition ensure_easyocr (E : Env) : M world unit :=
  w <- get ;;
  if easyocr_initialized (self w) then ret tt
  else if negb (EASYOCR_AVAILABLE E) then
    raise (Exception RuntimeError "easyocr not available")
  else
    emit LoadingEasyOCR ;;
    r <- lift (new_Reader E) ;;
    update (set_easyocr_reader (Some r)) ;;
    update (set_easyocr_initialized true) ;;
    emit EasyOCRReady.

(** [cleanup]. *)
Definition cleanup : M world unit :=
  emit CleaningUp ;;
  w <- get ;;
  (match pix2tex_model (self w) with
   | Some _ =>
       update (set_pix2tex_model None) ;;
       update (set_pix2tex_initialized false)
   | None => ret tt
   end) ;;
  w <- get ;;
  (match easyocr_reader (self w) with
   | Some _ =>
       update (set_easyocr_reader None) ;;
       update (set_easyocr_initialized false)
   | None => ret tt
   end) ;;
  emit ClearGpuMemory.

(** [ocr_simple]: the crop is saved to a temporary file that [readtext]
    reads and that is unlinked afterwards. *)
Definition ocr_simple (E : Env) (cropped_img : Image) : M world string :=
  ensure_easyocr E ;;
  let cropped_img := as_RGB cropped_img in
  w <- get ;;
  match easyocr_reader (self w) with
  | None =>
      raise (Exception AttributeError
               "'NoneType' object has no attribute 'readtext'")
  | Some reader =>
      result <- lift (readtext E reader cropped_img) ;;
      ret (best_text result)
  end.

(** [ocr_complex]. *)
Definition ocr_complex (E : Env) (cropped_img : Image) : M world string :=
  ensure_pix2tex E ;;
  let cropped_img := as_RGB cropped_img in
  w <- get ;;
  match pix2tex_model (self w) with
  | None => raise (Exception TypeError "'NoneType' object is not callable")
  | Some model => lift (call_LatexOCR E model cropped_img)
  end.

(** The [try] block of [ocr_image]. *)
Definition ocr_image_body (E : Env) (image_path : string) : M world OcrResult :=
  located <- lift (crop_to_content E image_path 20 250) ;;
  let '(cropped, (content_w, content_h, _, _)) := located in
  match cropped with
  | None =>
      ret {| success := false; latex := ""; file := image_path;
             error := Some "No content found"; method := "none";
             content_size := Some (0, 0); is_simple := None |}
  | Some cropped =>
      let is_simple := Classifier.is_simple_content_default content_w content_h in
      tm <- (if is_simple then
               text <- ocr_simple E cropped ;;
               let method := "easyocr" in
               let text := strip text in
               tm <- (if is_empty text then
                        emit EasyOCREmpty ;;
                        text <- ocr_complex E cropped ;;
                        ret (text, "easyocr+pix2tex")
                      else ret (text, method)) ;;
               let '(text, method) := tm in
               let latex :=
                 if isdigit text then text
                 else if isdigit (remove_char "," (remove_char "." text))
                 then text
                 else text in
               ret (latex, method)
             else
               latex <- ocr_complex E cropped ;;
               ret (latex, "pix2tex")) ;;
      let '(latex, method) := tm in
      ret {| success := true; latex := latex; file := image_path;
             error := None; method := method;
             content_size := Some (content_w, content_h);
             is_simple := Some is_simple |}
  end.

(** [ocr_image]. *)
Definition ocr_image (E : Env) (image_path : string) : M world OcrResult :=
  try_except (ocr_image_body E image_path)
    (fun msg =>
       ret {| success := false; latex := ""; file := image_path;
              error := Some msg; method := "error";
              content_size := Some (0, 0); is_simple := None |}).

(** The body of the loop of [ocr_directory]. *)
Definition process_file (E : Env) (total : nat) (item : nat * Pathlib.Path)
    (v : loop_vars) : M world loop_vars :=
  let '(i, img_path) := item in
  emit (Processing i total (Pathlib.name img_path)) ;;
  result <- ocr_image E (Pathlib.str img_path) ;;
  ret (record_result (Pathlib.name img_path) result v).

(** [ocr_directory]. *)
Definition ocr_directory (E : Env) (directory pattern : string)
    (auto_cleanup : bool) : M world BatchReport :=
  if negb (path_exists E directory) then
    raise (Exception FileNotFoundError ("Directory not found: " +:+ directory))
  else
    let image_files := Pathlib.sorted (glob E directory pattern) in
    match image_files with
    | [] => ret empty_report
    | _ :: _ =>
        let total := length image_files in
        v <- try_finally
               (for_each (enumerate image_files 1) (process_file E total)
                  loop_start)
               (if auto_cleanup then cleanup else ret tt) ;;
        ret (report_of v)
    end.

(** [main] with [--batch-dir]: the report is then serialized and written
    out. *)
Definition main_batch_dir (E : Env) (batch_dir : string) (no_cleanup : bool)
    : M world BatchReport :=
  let auto_cleanup := negb no_cleanup in
  try_finally (ocr_directory E batch_dir "*.png" auto_cleanup)
    (w <- get ;;
     if auto_cleanup
        && (pix2tex_initialized (self w) || easyocr_initialized (self w))
     then cleanup else ret tt).

(** The store of a program that has just built its [HybridOCR()]. *)
Definition fresh : world := {| self := init; trace := [] |}.

End V2.

(** ** [math-ocr-service.py]: the resident service *)

Module Service.

(** The attributes of the [OCRService] singleton, its lock apart (see
    [Gate] below). *)
Record OCRService := mk_service {
  pix2tex_model : option LatexOCR;
  easyocr_reader : option Reader
}.

(** What can be observed of the service, in order: the lines it writes
    to [stderr] and its calls of [gc.collect]. *)
Inductive event :=
  | LoadingModels
  | LoadingPix2tex
  | Pix2texLoaded
  | LoadingEasyOCR
  | EasyOCRLoaded
  | ModelsLoaded
  | GcCollect
  | Processing (i total : nat) (fname : string).

Record world := mk_world { self : OCRService; trace : list event }.

Definition emit (ev : event) : M world unit :=
  modify (fun w => {| self := self w; trace := trace w ++ [ev] |}).

Definition update (f : OCRService -> OCRService) : M world unit :=
  modify (fun w => {| self := f (self w); trace := trace w |}).

(** [OCRService.__init__], first construction. *)
Definition init : OCRService :=
  {| pix2tex_model := None; easyocr_reader := None |}.

(** [load_models]. *)
Definition load_models (E : Env) : M world unit :=
  emit LoadingModels ;;
  w <- get ;;
  (match pix2tex_model (self w) with
   | None =>
       if PIX2TEX_AVAILABLE E then
         emit LoadingPix2tex ;;
         m <- lift (new_LatexOCR E) ;;
         update (fun o => {| pix2tex_model := Some m;
                             easyocr_reader := easyocr_reader o |}) ;;
         emit Pix2texLoaded
       else ret tt
   | Some _ => ret tt
   end) ;;
  w <- get ;;
  (match easyocr_reader (self w) with
   | None =>
       if EASYOCR_AVAILABLE E then
         emit LoadingEasyOCR ;;
         r <- lift (new_Reader E) ;;
         update (fun o => {| pix2tex_model := pix2tex_model o;
                             easyocr_reader := Some r |}) ;;
         emit EasyOCRLoaded
       else ret tt
   | Some _ => ret tt
   end) ;;
  emit ModelsLoaded.

(** [ocr_simple]. *)
Definition ocr_simple (E : Env) (cropped_img : Image) : M world string :=
  w <- get ;;
  match easyocr_reader (self w) with
  | None => raise (Exception RuntimeError "EasyOCR not loaded")
  | Some reader =>
      let cropped_img := as_RGB cropped_img in
      result <- lift (readtext E reader cropped_img) ;;
      ret (best_text result)
  end.

(** [ocr_complex]. *)
Definition ocr_complex (E : Env) (cropped_img : Image) : M world string :=
  w <- get ;;
  match pix2tex_model (self w) with
  | None => raise (Exception RuntimeError "pix2tex not loaded")
  | Some model =>
      let cropped_img := as_RGB cropped_img in
      lift (call_LatexOCR E model cropped_img)
  end.

(** The [try] block of [ocr_image]. *)
Definition ocr_image_body (E : Env) (image_path : string) : M world OcrResult :=
  located <- lift (crop_to_content E image_path 20 250) ;;
  let '(cropped, (content_w, content_h, _, _)) := located in
  match cropped with
  | None =>
      ret {| success := false; latex := ""; file := image_path;
             error := Some "No content found"; method := "none";
             content_size := None; is_simple := None |}
  | Some cropped =>
      let is_simple := Classifier.is_simple_content_default content_w content_h in
      tm <- (if is_simple then
               text <- ocr_simple E cropped ;;
               let method := "easyocr" in
               let text := strip text in
               tm <- (if is_empty text then
                        text <- ocr_complex E cropped ;;
                        ret (text, "easyocr+pix2tex")
                      else ret (text, method)) ;;
               let '(text, method) := tm in
               let latex := text in
               ret (latex, method)
             else
               latex <- ocr_complex E cropped ;;
               ret (latex, "pix2tex")) ;;
      let '(latex, method) := tm in
      ret {| success := true; latex := latex; file := image_path;
             error := None; method := method;
             content_size := None; is_simple := Some is_simple |}
  end.

(** [ocr_image]. *)
Definition ocr_image (E : Env) (image_path : string) : M world OcrResult :=
  try_except (ocr_image_body E image_path)
    (fun msg =>
       ret {| success := false; latex := ""; file := image_path;
              error := Some msg; method := "error";
              content_size := None; is_simple := None |}).

(** The body of the loop of [ocr_directory]. *)
Definition process_file (E : Env) (total : nat) (item : nat * Pathlib.Path)
    (v : loop_vars) : M world loop_vars :=
  let '(i, img_path) := item in
  emit (Processing i total (Pathlib.name img_path)) ;;
  result <- ocr_image E (Pathlib.str img_path) ;;
  ret (record_result (Pathlib.name img_path) result v).

(** [ocr_directory], the block under [with self._processing_lock]. *)
Definition ocr_directory (E : Env) (directory pattern : string)
    : M world BatchReport :=
  if negb (path_exists E directory) then
    raise (Exception FileNotFoundError ("Directory not found: " +:+ directory))
  else
    let image_files := Pathlib.sorted (glob E directory pattern) in
    match image_files with
    | [] => ret empty_report
    | _ :: _ =>
        v <- for_each (enumerate image_files 1)
               (process_file E (length image_files)) loop_start ;;
        emit GcCollect ;;
        ret (report_of v)
    end.

End Service.

(** ** Vocabulary of the statements *)

(** The result that the [except] clause of [ocr_image] builds ([v2]
    adds the key [content_size]). *)
Definition error_result (image_path msg : string) (size : option (Z * Z))
    : OcrResult :=
  {| success := false; latex := ""; file := image_path;
     error := Some msg; method := "error";
     content_size := size; is_simple := None |}.

(** [V2_raises E p w e w']: from the store [w], exception [e] is raised
    while locating or recognizing image [p] in [HybridOCR.ocr_image], the
    store being [w'] at that point. *)
Inductive V2_raises (E : Env) (image_path : string) (w : V2.world) (e : exn)
    : V2.world -> Prop :=
  | V2_raises_locating :
      crop_to_content E image_path 20 250 = Raise e ->
      V2_raises E image_path w e w
  | V2_raises_text cropped cw ch pw ph w1 :
      crop_to_content E image_path 20 250 = Ok (Some cropped, (cw, ch, pw, ph)) ->
      Classifier.is_simple_content_default cw ch = true ->
      V2.ocr_simple E cropped w = (Raise e, w1) ->
      V2_raises E image_path w e w1
  | V2_raises_escalation cropped cw ch pw ph t w1 w2 :
      crop_to_content E image_path 20 250 = Ok (Some cropped, (cw, ch, pw, ph)) ->
      Classifier.is_simple_content_default cw ch = true ->
      V2.ocr_simple E cropped w = (Ok t, w1) ->
      strip t = "" ->
      V2.ocr_complex E cropped (snd (V2.emit V2.EasyOCREmpty w1)) = (Raise e, w2) ->
      V2_raises E image_path w e w2
  | V2_raises_formula cropped cw ch pw ph w1 :
      crop_to_content E image_path 20 250 = Ok (Some cropped, (cw, ch, pw, ph)) ->
      Classifier.is_simple_content_default cw ch = false ->
      V2.ocr_complex E cropped w = (Raise e, w1) ->
      V2_raises E image_path w e w1.

(** The same for [OCRService.ocr_image]. *)
Inductive Service_raises (E : Env) (image_path : string) (w : Service.world)
    (e : exn) : Service.world -> Prop :=
  | Service_raises_locating :
      crop_to_content E image_path 20 250 = Raise e ->
      Service_raises E image_path w e w
  | Service_raises_text cropped cw ch pw ph w1 :
      crop_to_content E image_path 20 250 = Ok (Some cropped, (cw, ch, pw, ph)) ->
      Classifier.is_simple_content_default cw ch = true ->
      Service.ocr_simple E cropped w = (Raise e, w1) ->
      Service_raises E image_path w e w1
  | Service_raises_escalation cropped cw ch pw ph t w1 w2 :
      crop_to_content E image_path 20 250 = Ok (Some cropped, (cw, ch, pw, ph)) ->
      Classifier.is_simple_content_default cw ch = true ->
      Service.ocr_simple E cropped w = (Ok t, w1) ->
      strip t = "" ->
      Service.ocr_complex E cropped w1 = (Raise e, w2) ->
      Service_raises E image_path w e w2
  | Service_raises_formula cropped cw ch pw ph w1 :
      crop_to_content E image_path 20 250 = Ok (Some cropped, (cw, ch, pw, ph)) ->
      Classifier.is_simple_content_default cw ch = false ->
      Service.ocr_complex E cropped w = (Raise e, w1) ->
      Service_raises E image_path w e w1.

(** [first_best l i x]: [x] is at index [i] of [l], no element of [l] has
    a larger confidence, and every element before index [i] has a
    strictly smaller one. *)
Definition first_best {A} (conf : A -> Q) (l : list A) (i : nat) (x : A) : Prop :=
  l !! i = Some x /\
  (forall j y, l !! j = Some y -> (conf y <= conf x)%Q) /\
  (forall j y, (j < i)%nat -> l !! j = Some y -> (conf y < conf x)%Q).

(** [picks_best result t]: [t] is the empty string when [result] is
    empty, and otherwise the text of the first region of [result] among
    those of maximal confidence. *)
Definition picks_best (result : list region) (t : string) : Prop :=
  match result with
  | [] => t = ""
  | _ :: _ =>
      exists i r, first_best (fun r : region => snd r) result i r
                  /\ t = snd (fst r)
  end.

(** [is_content img threshold x y]: pixel [(x, y)] of [img] is darker
    than [threshold]. *)
Definition is_content (img : Image) (threshold x y : Z) : Prop :=
  0 <= x < fst (img_size img) /\ 0 <= y < snd (img_size img) /\
  img_load img x y < threshold.

(** The states of a [HybridOCR] object that a program can reach: those
    of a fresh object after any sequence of calls of its methods. *)
Inductive V2_reachable (E : Env) : V2.world -> Prop :=
  | reach_init :
      V2_reachable E V2.fresh
  | reach_ensure_pix2tex w r w' :
      V2_reachable E w -> V2.ensure_pix2tex E w = (r, w') -> V2_reachable E w'
  | reach_ensure_easyocr w r w' :
      V2_reachable E w -> V2.ensure_easyocr E w = (r, w') -> V2_reachable E w'
  | reach_cleanup w r w' :
      V2_reachable E w -> V2.cleanup w = (r, w') -> V2_reachable E w'
  | reach_ocr_simple img w r w' :
      V2_reachable E w -> V2.ocr_simple E img w = (r, w') -> V2_reachable E w'
  | reach_ocr_complex img w r w' :
      V2_reachable E w -> V2.ocr_complex E img w = (r, w') -> V2_reachable E w'
  | reach_ocr_image image_path w r w' :
      V2_reachable E w -> V2.ocr_image E image_path w = (r, w') ->
      V2_reachable E w'
  | reach_ocr_directory directory pattern auto_cleanup w r w' :
      V2_reachable E w ->
      V2.ocr_directory E directory pattern auto_cleanup w = (r, w') ->
      V2_reachable E w'.

Definition holds {A} (o : option A) : bool :=
  match o with
  | Some _ => true
  | None => false
  end.

(** Each flag tells whether its engine is held. *)
Definition flags_agree (o : V2.HybridOCR) : Prop :=
  V2.pix2tex_initialized o = holds (V2.pix2tex_model o) /\
  V2.easyocr_initialized o = holds (V2.easyocr_reader o).

Definition V2_inv (w : V2.world) : Prop := flags_agree (V2.self w).

(** A computation keeps [Inv], however it ends. *)
Definition preserves {St A} (Inv : St -> Prop) (c : M St A) : Prop :=
  forall s r s', Inv s -> c s = (r, s') -> Inv s'.

(** The text that the loop stores under a file's name for its result. *)
Definition file_entry (r : OcrResult) : string :=
  if success r then latex r else "[ERROR: " +:+ fmt (error r) +:+ "]".

(** The error records of the failed files among [names], in their
    order, [rs] being the results for [names] in turn. *)
Fixpoint error_records (names : list string) (rs : list OcrResult)
    : list (string * option string) :=
  match names, rs with
  | n :: names', r :: rs' =>
      if success r then error_records names' rs'
      else (n, error r) :: error_records names' rs'
  | _, _ => []
  end.

(** The locals of the loop after the results [rs] for [names] in turn. *)
Fixpoint record_all (names : list string) (rs : list OcrResult) (v : loop_vars)
    : loop_vars :=
  match names, rs with
  | n :: names', r :: rs' => record_all names' rs' (record_result n r v)
  | _, _ => v
  end.

(** [V2_batch E total items w rs w']: from the store [w], the loop of
    [HybridOCR.ocr_directory] calls [ocr_image] on the files of [items] in
    turn, obtains the results [rs] and ends in the store [w']. *)
Inductive V2_batch (E : Env) (total : nat)
    : list (nat * Pathlib.Path) -> V2.world -> list OcrResult -> V2.world -> Prop :=
  | V2_batch_nil w : V2_batch E total [] w [] w
  | V2_batch_cons i img_path items w r w1 rs w2 :
      V2.ocr_image E (Pathlib.str img_path)
        (snd (V2.emit (V2.Processing i total (Pathlib.name img_path)) w))
        = (Ok r, w1) ->
      V2_batch E total items w1 rs w2 ->
      V2_batch E total ((i, img_path) :: items) w (r :: rs) w2.

(** The same for the loop of [OCRService.ocr_directory]. *)
Inductive Service_batch (E : Env) (total : nat)
    : list (nat * Pathlib.Path) -> Service.world -> list OcrResult
      -> Service.world -> Prop :=
  | Service_batch_nil w : Service_batch E total [] w [] w
  | Service_batch_cons i img_path items w r w1 rs w2 :
      Service.ocr_image E (Pathlib.str img_path)
        (snd (Service.emit
                (Service.Processing i total (Pathlib.name img_path)) w))
        = (Ok r, w1) ->
      Service_batch E total items w1 rs w2 ->
      Service_batch E total ((i, img_path) :: items) w (r :: rs) w2.

(** A failed result carries a message, and its entry is the message
    between "[ERROR: " and "]". *)
Definition failure_has_message (r : OcrResult) : Prop :=
  success r = false ->
  exists msg, error r = Some msg /\ file_entry r = "[ERROR: " +:+ msg +:+ "]".

(** [report_matches files rs report]: the report has, for the results
    [rs] of the files [files] in turn, one entry per file and no other,
    the error records of the failed files, and the counts of the files
    and of the successes. *)
Definition report_matches (files : list Pathlib.Path) (rs : list OcrResult)
    (report : BatchReport) : Prop :=
  length rs = length files /\
  Forall failure_has_message rs /\
  (forall i f r,
     files !! i = Some f -> rs !! i = Some r ->
     results report !! Pathlib.name f = Some (file_entry r)) /\
  (forall k, is_Some (results report !! k) ->
             exists f, f ∈ files /\ Pathlib.name f = k) /\
  errors report = error_records (map Pathlib.name files) rs /\
  count report = Z.of_nat (length files) /\
  success_count report = count report - Z.of_nat (length (errors report)).

(** The environment [E] with another enumeration of the directories. *)
Definition with_glob (E : Env) (g : string -> string -> list Pathlib.Path) : Env :=
  {| PIX2TEX_AVAILABLE := PIX2TEX_AVAILABLE E;
     EASYOCR_AVAILABLE := EASYOCR_AVAILABLE E;
     new_LatexOCR := new_LatexOCR E;
     new_Reader := new_Reader E;
     call_LatexOCR := call_LatexOCR E;
     readtext := readtext E;
     Image_open := Image_open E;
     path_exists := path_exists E;
     glob := g |}.

(** Lexicographic order of file names. *)
Definition name_le (a b : string) : Prop := String.leb a b = true.

(** [cleanup_ran_last w']: [w'] is the store that a call of [cleanup]
    leaves. *)
Definition cleanup_ran_last (w' : V2.world) : Prop :=
  exists w1, V2.cleanup w1 = (Ok tt, w').

(** ** The processing lock of the service *)

Module Gate.

(** What a thread of the executor does next: enter or leave the block
    [with self._processing_lock], enter [ocr_image] or return from it. *)
Inductive instr :=
  | Acquire
  | Release
  | BeginOcr (image_path : string)
  | EndOcr.

(** The request [/ocr/batch]: [ocr_directory], on the sorted files. *)
Definition ocr_batch (image_files : list Pathlib.Path) : list instr :=
  (Acquire
   :: flat_map (fun img_path => [BeginOcr (Pathlib.str img_path); EndOcr])
        image_files
   ++ [Release])%list.

(** The request [/ocr/single]: [ocr_image], the lock not being taken. *)
Definition ocr_single (image_path : string) : list instr :=
  [BeginOcr image_path; EndOcr].

(** A thread: what is left of its request, and the image it is
    recognizing, if any. *)
Record thread := mk_thread { code : list instr; recognizing : option string }.

(** The process: who holds [_processing_lock], and the threads. *)
Record state := mk_state { lock : option nat; threads : list thread }.

Definition start (requests : list (list instr)) : state :=
  {| lock := None;
     threads := map (fun c => {| code := c; recognizing := None |}) requests |}.

Definition set_thread (i : nat) (th : thread) (s : state) (l : option nat) : state :=
  {| lock := l; threads := <[i := th]> (threads s) |}.

(** One step of thread [i]; [None] when the thread has finished or waits
    for the lock. *)
Definition step (i : nat) (s : state) : option state :=
  match threads s !! i with
  | None => None
  | Some th =>
      match code th with
      | [] => None
      | Acquire :: rest =>
          match lock s with
          | None =>
              Some (set_thread i {| code := rest; recognizing := recognizing th |}
                      s (Some i))
          | Some _ => None
          end
      | Release :: rest =>
          Some (set_thread i {| code := rest; recognizing := recognizing th |}
                  s None)
      | BeginOcr image_path :: rest =>
          Some (set_thread i {| code := rest; recognizing := Some image_path |}
                  s (lock s))
      | EndOcr :: rest =>
          Some (set_thread i {| code := rest; recognizing := None |} s (lock s))
      end
  end.

(** The threads taking steps in the order [schedule]. *)
Fixpoint run (schedule : list nat) (s : state) : option state :=
  match schedule with
  | [] => Some s
  | i :: schedule' =>
      match step i s with
      | Some s' => run schedule' s'
      | None => None
      end
  end.

(** The threads that are inside [ocr_image]. *)
Definition recognizers (s : state) : list nat :=
  map fst
    (filter (fun it => holds (recognizing (snd it)))
       (enumerate (threads s) 0)).

End Gate.

(** ** Test data *)

Module Fixtures.

(** A grayscale image given by its rows. *)
Definition image_of_rows (rows : list (list Z)) : Image :=
  {| img_mode := L;
     img_size := (Z.of_nat (length (hd [] rows)), Z.of_nat (length rows));
     img_load := fun x y => nth (Z.to_nat x) (nth (Z.to_nat y) rows []) 255 |}.

(** A white page. *)
Definition blank : Image :=
  image_of_rows
    [[255; 255; 255; 255];
     [255; 255; 255; 255];
     [255; 255; 255; 255]].

(** A small square blob: raw content 2 by 2. *)
Definition digit : Image :=
  image_of_rows
    [[255; 255; 255; 255; 255];
     [255;   0;  90;   0; 255];
     [255;   0; 255;   0; 255];
     [255;   0;  10;   0; 255];
     [255; 255; 255; 255; 255]].

(** A wide line: raw content 6 by 1. *)
Definition formula : Image :=
  image_of_rows
    [[255; 255; 255; 255; 255; 255; 255; 255; 255];
     [255;   0;   0;  40;   0;   0; 200;   0; 255];
     [255; 255;   0; 255; 255; 255; 255;   0; 255];
     [255; 255; 255; 255; 255; 255; 255; 255; 255]].

(** One dark pixel. *)
Definition dot : Image :=
  image_of_rows
    [[255; 255; 255];
     [255;   0; 255];
     [255; 255; 255]].

Definition open_demo (image_path : string) : res Image :=
  if String.eqb image_path "/data/blank.png" then Ok blank
  else if String.eqb image_path "/data/digit.png" then Ok digit
  else if String.eqb image_path "/data/formula.png" then Ok formula
  else if String.eqb image_path "/data/dot.png" then Ok dot
  else if String.eqb image_path "/data/a/x.png" then Ok blank
  else if String.eqb image_path "/data/b/x.png" then Ok digit
  else if String.eqb image_path "/data/a/z.png" then Ok blank
  else if String.eqb image_path "/data/b/a.png" then Ok blank
  else Raise (Exception FileNotFoundError
                ("[Errno 2] No such file or directory: '" +:+ image_path +:+ "'")).

(** Both engines installed; [texts] is what the reader finds on any crop,
    [formula_text] what the formula model returns, [listing] what the
    directory "/data" enumerates. *)
Definition demo (texts : res (list region)) (formula_text : res string)
    (listing : list Pathlib.Path) : Env :=
  {| PIX2TEX_AVAILABLE := true;
     EASYOCR_AVAILABLE := true;
     new_LatexOCR := Ok LatexOCR_model;
     new_Reader := Ok Reader_model;
     call_LatexOCR := fun _ _ => formula_text;
     readtext := fun _ _ => texts;
     Image_open := open_demo;
     path_exists := fun d => String.eqb d "/data";
     glob := fun d _ => if String.eqb d "/data" then listing else [] |}.

Definition data (fname : string) : Pathlib.Path := [""; "data"; fname].

(** Three files, enumerated out of order. *)
Definition three_files : list Pathlib.Path :=
  [data "formula.png"; data "blank.png"; data "digit.png"].

(** Two files of the same name in two subdirectories. *)
Definition same_name : list Pathlib.Path :=
  [[""; "data"; "a"; "x.png"]; [""; "data"; "b"; "x.png"]].

(** Two files whose names and directories sort in opposite orders. *)
Definition crossed : list Pathlib.Path :=
  [[""; "data"; "b"; "a.png"]; [""; "data"; "a"; "z.png"]].

Definition seven : res (list region) := Ok [([], "7", 0.93%Q)].
Definition spaces : res (list region) := Ok [([], "  ", 0.41%Q)].
Definition ties : list region :=
  [([], "a", 0.5%Q); ([], "b", 0.9%Q); ([], "c", (9 # 10)%Q); ([], "d", 0.2%Q)].

Definition E_scenario : Env := demo seven (Ok "x^{2}+1") three_files.
Definition E_escalate : Env := demo spaces (Ok "0") three_files.
Definition E_ties : Env := demo (Ok ties) (Ok "x") three_files.
Definition E_interrupt : Env := demo seven (Raise KeyboardInterrupt) three_files.
Definition E_no_files : Env := demo seven (Ok "x") [].
Definition E_out_of_memory : Env :=
  demo (Raise (Exception RuntimeError "CUDA out of memory")) (Ok "x") three_files.
Definition E_same_name : Env := demo seven (Ok "x") same_name.
Definition E_crossed : Env := demo seven (Ok "x") crossed.

(** The crop of [digit]: the padding of 20 reaches the borders. *)
Definition digit_crop : Image := crop (convert L digit) 0 0 5 5.

(** The report of the one-shot script on [E_scenario]. *)
Definition scenario_report : BatchReport :=
  {| results :=
       <["formula.png" := "x^{2}+1"]>
         (<["digit.png" := "7"]>
            (<["blank.png" := "[ERROR: No content found]"]> ∅));
     count := 3;
     success_count := 2;
     simple_count := 1;
     complex_count := 1;
     errors := [("blank.png", Some "No content found")] |}.

(** A [HybridOCR] object that has recognized a formula and keeps the
    formula model loaded. *)
Definition loaded : V2.world :=
  snd (V2.ocr_image E_no_files "/data/formula.png" V2.fresh).

(** A service with both models resident. *)
Definition resident : Service.world :=
  {| Service.self := {| Service.pix2tex_model := Some LatexOCR_model;
                        Service.easyocr_reader := Some Reader_model |};
     Service.trace := [] |}.

End Fixtures.

(** ** Vocabulary of the lock discipline *)

(** [inside_ok recognizing body]: [body] is what is left of the loop of a
    batch, calls of [ocr_image] one after the other, the first
    instruction being the return of the call under way when
    [recognizing] holds. *)
Fixpoint inside_ok (recognizing : bool) (body : list Gate.instr) : bool :=
  match body with
  | [] => negb recognizing
  | Gate.BeginOcr _ :: body' => negb recognizing && inside_ok true body'
  | Gate.EndOcr :: body' => recognizing && inside_ok false body'
  | _ => false
  end.

(** A thread serving a batch has not taken the lock yet, or holds it and
    is in its loop, or has finished; only the second recognizes. *)
Definition batch_thread_ok (lock : option nat) (i : nat) (th : Gate.thread)
    : Prop :=
  (Gate.recognizing th = None /\
   exists body, Gate.code th = (Gate.Acquire :: body ++ [Gate.Release])%list
                /\ inside_ok false body = true) \/
  (lock = Some i /\
   exists body, Gate.code th = (body ++ [Gate.Release])%list
                /\ inside_ok (holds (Gate.recognizing th)) body = true) \/
  (Gate.code th = [] /\ Gate.recognizing th = None).

Definition batches_ok (s : Gate.state) : Prop :=
  forall i th, Gate.threads s !! i = Some th ->
               batch_thread_ok (Gate.lock s) i th.

(** ** Vocabulary of the locator *)

(** [box_le b b']: the box [b'] contains the box [b]. *)
Definition box_le (b b' : bounds) : Prop :=
  min_x b' <= min_x b /\ min_y b' <= min_y b /\
  max_x b <= max_x b' /\ max_y b <= max_y b'.

(** [in_box b x y]: pixel [(x, y)] lies within the bounds [b], ends
    included. *)
Definition in_box (b : bounds) (x y : Z) : Prop :=
  min_x b <= x <= max_x b /\ min_y b <= y <= max_y b.

(** Each of the four bounds is the coordinate of some content pixel. *)
Definition attained (img : Image) (threshold : Z) (b : bounds) : Prop :=
  (exists y, is_content img threshold (min_x b) y) /\
  (exists y, is_content img threshold (max_x b) y) /\
  (exists x, is_content img threshold x (min_y b)) /\
  (exists x, is_content img threshold x (max_y b)).

(** The bounds before the scan. *)
Definition no_bounds (img : Image) : bounds :=
  {| min_x := fst (img_size img); min_y := snd (img_size img);
     max_x := 0; max_y := 0 |}.

(** Content in two different columns; content in two different rows. *)
Definition spans_columns (img : Image) (threshold : Z) : Prop :=
  exists x1 y1 x2 y2,
    is_content img threshold x1 y1 /\ is_content img threshold x2 y2 /\ x1 < x2.

Definition spans_rows (img : Image) (threshold : Z) : Prop :=
  exists x1 y1 x2 y2,
    is_content img threshold x1 y1 /\ is_content img threshold x2 y2 /\ y1 < y2.

(** ** Vocabulary of the classifier *)

(** The rule of [is_simple_content] with the default thresholds, in exact
    integer arithmetic: the ratio [w / h] between 0.35 and 2, and the
    area below 5000 or both sides below 80. *)
Definition exact_rule (w h : Z) : bool :=
  (7 * h <=? 20 * w) && (w <=? 2 * h)
  && ((w * h <? 5000) || ((w <? 80) && (h <? 80))).

(** The classifier, computing in binary64, decides as the exact rule. *)
Definition agrees (w h : Z) : bool :=
  Bool.eqb (Classifier.is_simple_content_default w h) (exact_rule w h).

(** The largest height with which the width [w] passes a size test. *)
Definition height_limit (w : Z) : Z :=
  Z.max (4999 / w) (if w <? 80 then 79 else 0).

(** [p] holds at every pair [(w, h)] with [1 <= w <= n] and
    [1 <= h <= lim w]. *)
Definition all_pairs (p : Z -> Z -> bool) (lim : Z -> Z) (n : Z) : bool :=
  forallb (fun w => forallb (fun h => p (w + 1) (h + 1)) (range (lim (w + 1))))
    (range n).

(** ** Vocabulary of the dispatcher's results *)

(** The result of a recognition that succeeded. *)
Definition success_result (image_path text how : string)
    (size : option (Z * Z)) (simple : bool) : OcrResult :=
  {| success := true; latex := text; file := image_path;
     error := None; method := how;
     content_size := size; is_simple := Some simple |}.

(** The result for an image on which no content is located. *)
Definition no_content_result (image_path : string) (size : option (Z * Z))
    : OcrResult :=
  {| success := false; latex := ""; file := image_path;
     error := Some "No content found"; method := "none";
     content_size := size; is_simple := None |}.

(** [V2_returns E p w r w']: the ways in which [HybridOCR.ocr_image]
    returns the result [r] for image [p] from the store [w]. *)
Inductive V2_returns (E : Env) (image_path : string) (w : V2.world)
    : OcrResult -> V2.world -> Prop :=
  | V2_returns_error cls msg w1 :
      V2_raises E image_path w (Exception cls msg) w1 ->
      V2_returns E image_path w (error_result image_path msg (Some (0, 0))) w1
  | V2_returns_none dims :
      crop_to_content E image_path 20 250 = Ok (None, dims) ->
      V2_returns E image_path w (no_content_result image_path (Some (0, 0))) w
  | V2_returns_text cropped cw ch pw ph t w1 :
      crop_to_content E image_path 20 250 = Ok (Some cropped, (cw, ch, pw, ph)) ->
      Classifier.is_simple_content_default cw ch = true ->
      V2.ocr_simple E cropped w = (Ok t, w1) ->
      strip t <> "" ->
      V2_returns E image_path w
        (success_result image_path (strip t) "easyocr" (Some (cw, ch)) true) w1
  | V2_returns_escalated cropped cw ch pw ph t w1 u w2 :
      crop_to_content E image_path 20 250 = Ok (Some cropped, (cw, ch, pw, ph)) ->
      Classifier.is_simple_content_default cw ch = true ->
      V2.ocr_simple E cropped w = (Ok t, w1) ->
      strip t = "" ->
      V2.ocr_complex E cropped (snd (V2.emit V2.EasyOCREmpty w1)) = (Ok u, w2) ->
      V2_returns E image_path w
        (success_result image_path u "easyocr+pix2tex" (Some (cw, ch)) true) w2
  | V2_returns_formula cropped cw ch pw ph u w1 :
      crop_to_content E image_path 20 250 = Ok (Some cropped, (cw, ch, pw, ph)) ->
      Classifier.is_simple_content_default cw ch = false ->
      V2.ocr_complex E cropped w = (Ok u, w1) ->
      V2_returns E image_path w
        (success_result image_path u "pix2tex" (Some (cw, ch)) false) w1.

(** The same for [OCRService.ocr_image]. *)
Inductive Service_returns (E : Env) (image_path : string) (w : Service.world)
    : OcrResult -> Service.world -> Prop :=
  | Service_returns_error cls msg w1 :
      Service_raises E image_path w (Exception cls msg) w1 ->
      Service_returns E image_path w (error_result image_path msg None) w1
  | Service_returns_none dims :
      crop_to_content E image_path 20 250 = Ok (None, dims) ->
      Service_returns E image_path w (no_content_result image_path None) w
  | Service_returns_text cropped cw ch pw ph t w1 :
      crop_to_content E image_path 20 250 = Ok (Some cropped, (cw, ch, pw, ph)) ->
      Classifier.is_simple_content_default cw ch = true ->
      Service.ocr_simple E cropped w = (Ok t, w1) ->
      strip t <> "" ->
      Service_returns E image_path w
        (success_result image_path (strip t) "easyocr" None true) w1
  | Service_returns_escalated cropped cw ch pw ph t w1 u w2 :
      crop_to_content E image_path 20 250 = Ok (Some cropped, (cw, ch, pw, ph)) ->
      Classifier.is_simple_content_default cw ch = true ->
      Service.ocr_simple E cropped w = (Ok t, w1) ->
      strip t = "" ->
      Service.ocr_complex E cropped w1 = (Ok u, w2) ->
      Service_returns E image_path w
        (success_result image_path u "easyocr+pix2tex" None true) w2
  | Service_returns_formula cropped cw ch pw ph u w1 :
      crop_to_content E image_path 20 250 = Ok (Some cropped, (cw, ch, pw, ph)) ->
      Classifier.is_simple_content_default cw ch = false ->
      Service.ocr_complex E cropped w = (Ok u, w1) ->
      Service_returns E image_path w
        (success_result image_path u "pix2tex" None false) w1.

(** The shape of every result: a success names the engine that produced
    the text and tells how the content was classified; a failure has no
    text and names its cause. *)
Definition well_formed (image_path : string) (r : OcrResult) : Prop :=
  file r = image_path /\
  if success r then
    error r = None /\
    ((method r = "easyocr" /\ is_simple r = Some true) \/
     (method r = "easyocr+pix2tex" /\ is_simple r = Some true) \/
     (method r = "pix2tex" /\ is_simple r = Some false))
  else
    latex r = "" /\ is_simple r = None /\
    ((method r = "none" /\ error r = Some "No content found") \/
     (method r = "error" /\ exists msg, error r = Some msg)).

(** ** Vocabulary of the engines' life cycle *)

(** What a [HybridOCR] object knows of its text engine, and of its
    formula engine: the handle and the flag. *)
Definition text_engine (o : V2.HybridOCR) : option Reader * bool :=
  (V2.easyocr_reader o, V2.easyocr_initialized o).

Definition formula_engine (o : V2.HybridOCR) : option LatexOCR * bool :=
  (V2.pix2tex_model o, V2.pix2tex_initialized o).

(** The service as [OCRService()] builds it, before [load_models]. *)
Definition Service_fresh : Service.world :=
  {| Service.self := Service.init; Service.trace := [] |}.

(** [Service_serving E w0 w]: the service, in the store [w0] when it
    starts to serve, reaches the store [w] by serving requests. *)
Inductive Service_serving (E : Env) (w0 : Service.world)
    : Service.world -> Prop :=
  | serving_start : Service_serving E w0 w0
  | serving_single image_path w r w' :
      Service_serving E w0 w ->
      Service.ocr_image E image_path w = (r, w') ->
      Service_serving E w0 w'
  | serving_batch directory pattern w r w' :
      Service_serving E w0 w ->
      Service.ocr_directory E directory pattern w = (r, w') ->
      Service_serving E w0 w'.

(** A machine on which the text engine is not installed. *)
Definition E_no_text_engine : Env :=
  {| PIX2TEX_AVAILABLE := true;
     EASYOCR_AVAILABLE := false;
     new_LatexOCR := Ok LatexOCR_model;
     new_Reader := Raise (Exception OtherError "No module named 'easyocr'");
     call_LatexOCR := fun _ _ => Ok "x^{2}+1";
     readtext := fun _ _ => Ok [];
     Image_open := Fixtures.open_demo;
     path_exists := fun d => String.eqb d "/data";
     glob := fun d _ => if String.eqb d "/data" then Fixtures.three_files else [] |}.

(** * Part II: properties *)

(** C1: with the default thresholds, the six boundary cases of the
    classifier: (0,0), (20,20) and (79,79) are simple; (100,10), (50,200)
    and (80,80) are complex. *)
Theorem classify_boundary_cases :
  Classifier.is_simple_content_default 0 0 = true /\
  Classifier.is_simple_content_default 100 10 = false /\
  Classifier.is_simple_content_default 50 200 = false /\
  Classifier.is_simple_content_default 20 20 = true /\
  Classifier.is_simple_content_default 79 79 = true /\
  Classifier.is_simple_content_default 80 80 = false.
Proof. repeat split; vm_compute; reflexivity. Qed.

(** ** Running computations *)

Lemma bind_ok {St A B} (c : M St A) (k : A -> M St B) s a s1 :
  c s = (Ok a, s1) -> bind c k s = k a s1.
Proof. intros H. unfold bind. now rewrite H. Qed.

Lemma bind_raise {St A B} (c : M St A) (k : A -> M St B) s e s1 :
  c s = (Raise e, s1) -> bind c k s = (Raise e, s1).
Proof. intros H. unfold bind. now rewrite H. Qed.

Lemma bind_inv_ok {St A B} (c : M St A) (k : A -> M St B) s b s2 :
  bind c k s = (Ok b, s2) ->
  exists a s1, c s = (Ok a, s1) /\ k a s1 = (Ok b, s2).
Proof.
  unfold bind. destruct (c s) as [[a|e] s1]; intros H.
  - now exists a, s1.
  - discriminate.
Qed.

Lemma bind_inv_raise {St A B} (c : M St A) (k : A -> M St B) s e s2 :
  bind c k s = (Raise e, s2) ->
  c s = (Raise e, s2) \/
  exists a s1, c s = (Ok a, s1) /\ k a s1 = (Raise e, s2).
Proof.
  unfold bind. destruct (c s) as [[a|e'] s1]; intros H.
  - right. now exists a, s1.
  - left. now inversion H.
Qed.

Lemma is_empty_true s : is_empty s = true <-> s = "".
Proof. destruct s; simpl; split; congruence. Qed.

Lemma is_empty_false s : is_empty s = false <-> s <> "".
Proof. destruct s; simpl; split; congruence. Qed.

(** ** The dispatcher *)

(** Rewrites one call inside a try block with what it is known to return. *)
Ltac run_call H :=
  first [ rewrite (bind_ok _ _ _ _ _ H) | rewrite (bind_raise _ _ _ _ _ H) ].

Lemma lift_run {St A} (r : res A) (s : St) : lift r s = (r, s).
Proof. reflexivity. Qed.

(** The try block of [HybridOCR.ocr_image] raises exactly where
    [V2_raises] says. *)
Lemma V2_body_raises E image_path w e w1 :
  V2.ocr_image_body E image_path w = (Raise e, w1) <->
  V2_raises E image_path w e w1.
Proof.
  unfold V2.ocr_image_body. split.
  - intros H.
    destruct (crop_to_content E image_path 20 250)
      as [[[cropped|] [[[cw ch] pw] ph]]|e0] eqn:Hloc.
    + rewrite (bind_ok _ _ w _ w (lift_run _ w)) in H.
      destruct (Classifier.is_simple_content_default cw ch) eqn:Hs.
      * apply bind_inv_raise in H as [H|(tm & w2 & H & Hk)];
          [|destruct tm; discriminate].
        apply bind_inv_raise in H as [H|(t & w3 & Ht & H)].
        { eapply V2_raises_text; eauto. }
        apply bind_inv_raise in H as [H|(tm & w4 & H & Hk)];
          [|destruct tm; discriminate].
        destruct (is_empty (strip t)) eqn:Hempty; [|discriminate].
        apply is_empty_true in Hempty.
        apply bind_inv_raise in H as [H|(u & w4 & Hp & H)]; [discriminate|].
        apply bind_inv_raise in H as [H|(u' & w5 & H & Hk)]; [|discriminate].
        eapply V2_raises_escalation; eauto.
        replace (snd (V2.emit V2.EasyOCREmpty w3)) with w4; [exact H|].
        unfold V2.emit, modify in *. now inversion Hp.
      * apply bind_inv_raise in H as [H|(tm & w2 & H & Hk)];
          [|destruct tm; discriminate].
        apply bind_inv_raise in H as [H|(u & w3 & H & Hk)]; [|discriminate].
        eapply V2_raises_formula; eauto.
    + rewrite (bind_ok _ _ w _ w (lift_run _ w)) in H. discriminate.
    + rewrite (bind_raise _ _ w _ w (lift_run _ w)) in H.
      inversion H; subst. now apply V2_raises_locating.
  - intros [Hloc|cropped cw ch pw ph w' Hloc Hs Ht
            |cropped cw ch pw ph t w' w'' Hloc Hs Ht Hempty Hu
            |cropped cw ch pw ph w' Hloc Hs Hu]; rewrite Hloc.
    + reflexivity.
    + rewrite (bind_ok _ _ w _ w (lift_run _ w)). rewrite Hs.
      apply bind_raise. now apply bind_raise.
    + rewrite (bind_ok _ _ w _ w (lift_run _ w)). rewrite Hs.
      apply bind_raise. run_call Ht. rewrite Hempty. simpl.
      apply bind_raise. unfold bind at 1. simpl.
      now apply bind_raise.
    + rewrite (bind_ok _ _ w _ w (lift_run _ w)). rewrite Hs.
      apply bind_raise. now apply bind_raise.
Qed.

(** The try block of [OCRService.ocr_image] raises exactly where
    [Service_raises] says. *)
Lemma Service_body_raises E image_path w e w1 :
  Service.ocr_image_body E image_path w = (Raise e, w1) <->
  Service_raises E image_path w e w1.
Proof.
  unfold Service.ocr_image_body. split.
  - intros H.
    destruct (crop_to_content E image_path 20 250)
      as [[[cropped|] [[[cw ch] pw] ph]]|e0] eqn:Hloc.
    + rewrite (bind_ok _ _ w _ w (lift_run _ w)) in H.
      destruct (Classifier.is_simple_content_default cw ch) eqn:Hs.
      * apply bind_inv_raise in H as [H|(tm & w2 & H & Hk)];
          [|destruct tm; discriminate].
        apply bind_inv_raise in H as [H|(t & w3 & Ht & H)].
        { eapply Service_raises_text; eauto. }
        apply bind_inv_raise in H as [H|(tm & w4 & H & Hk)];
          [|destruct tm; discriminate].
        destruct (is_empty (strip t)) eqn:Hempty; [|discriminate].
        apply is_empty_true in Hempty.
        apply bind_inv_raise in H as [H|(u' & w5 & H & Hk)]; [|discriminate].
        eapply Service_raises_escalation; eauto.
      * apply bind_inv_raise in H as [H|(tm & w2 & H & Hk)];
          [|destruct tm; discriminate].
        apply bind_inv_raise in H as [H|(u & w3 & H & Hk)]; [|discriminate].
        eapply Service_raises_formula; eauto.
    + rewrite (bind_ok _ _ w _ w (lift_run _ w)) in H. discriminate.
    + rewrite (bind_raise _ _ w _ w (lift_run _ w)) in H.
      inversion H; subst. now apply Service_raises_locating.
  - intros [Hloc|cropped cw ch pw ph w' Hloc Hs Ht
            |cropped cw ch pw ph t w' w'' Hloc Hs Ht Hempty Hu
            |cropped cw ch pw ph w' Hloc Hs Hu]; rewrite Hloc.
    + reflexivity.
    + rewrite (bind_ok _ _ w _ w (lift_run _ w)). rewrite Hs.
      apply bind_raise. now apply bind_raise.
    + rewrite (bind_ok _ _ w _ w (lift_run _ w)). rewrite Hs.
      apply bind_raise. run_call Ht. rewrite Hempty. simpl.
      apply bind_raise. now apply bind_raise.
    + rewrite (bind_ok _ _ w _ w (lift_run _ w)). rewrite Hs.
      apply bind_raise. now apply bind_raise.
Qed.

Lemma try_except_caught {St A} (body : M St A) handler s cls msg s1 :
  body s = (Raise (Exception cls msg), s1) ->
  try_except body handler s = handler msg s1.
Proof. intros H. unfold try_except. now rewrite H. Qed.

Lemma try_except_ok {St A} (body : M St A) handler s a s1 :
  body s = (Ok a, s1) -> try_except body handler s = (Ok a, s1).
Proof. intros H. unfold try_except. now rewrite H. Qed.

(** What [try_except] lets through is system-exiting, when the handler
    itself does not raise. *)
Lemma try_except_escapes {St A} (body : M St A) (f : string -> A) s e s1 :
  try_except body (fun msg => ret (f msg)) s = (Raise e, s1) ->
  e = KeyboardInterrupt /\ body s = (Raise e, s1).
Proof.
  unfold try_except. destruct (body s) as [[a|[cls msg|]] s0]; try discriminate.
  intros H. inversion H; subst. now split.
Qed.

(** C4: every exception of class [Exception] raised while locating or
    recognizing an image (classifying raises nothing) is caught inside
    [ocr_image], which returns the failure result carrying the exception's
    message and the method "error"; [ocr_image] itself raises no such
    exception, in the one-shot script and in the service alike. *)
Theorem ocr_image_catches_exceptions
    (E : Env) (image_path : string) (cls : exception_class) (msg : string) :
  (forall w w1,
     V2_raises E image_path w (Exception cls msg) w1 ->
     V2.ocr_image E image_path w
       = (Ok (error_result image_path msg (Some (0, 0))), w1)) /\
  (forall w w1,
     Service_raises E image_path w (Exception cls msg) w1 ->
     Service.ocr_image E image_path w
       = (Ok (error_result image_path msg None), w1)) /\
  (forall w w1, V2.ocr_image E image_path w <> (Raise (Exception cls msg), w1)) /\
  (forall w w1,
     Service.ocr_image E image_path w <> (Raise (Exception cls msg), w1)).
Proof.
  repeat split.
  - intros w w1 H. apply V2_body_raises in H.
    unfold V2.ocr_image. now rewrite (try_except_caught _ _ _ _ _ _ H).
  - intros w w1 H. apply Service_body_raises in H.
    unfold Service.ocr_image. now rewrite (try_except_caught _ _ _ _ _ _ H).
  - intros w w1 H. apply try_except_escapes in H as [H _]. congruence.
  - intros w w1 H. apply try_except_escapes in H as [H _]. congruence.
Qed.

(** The digit test of [HybridOCR.ocr_image] selects the same text on
    each of its branches. *)
Lemma digit_test_same (text : string) :
  (if isdigit text then text
   else if isdigit (remove_char "," (remove_char "." text)) then text
   else text) = text.
Proof.
  destruct (isdigit text); [reflexivity|].
  now destruct (isdigit (remove_char "," (remove_char "." text))).
Qed.

Lemma V2_emit_run ev w :
  V2.emit ev w = (Ok tt, snd (V2.emit ev w)).
Proof. reflexivity. Qed.

(** C2: on an image whose content is classified simple, when the text
    engine's text is empty once stripped, the formula engine is called on
    the same crop and the result has method "easyocr+pix2tex" and the
    formula engine's text; otherwise the result has method "easyocr" and
    the stripped text of the text engine. *)
Theorem simple_content_escalation
    (E : Env) (image_path : string) (cropped : Image) (cw ch pw ph : Z) :
  crop_to_content E image_path 20 250 = Ok (Some cropped, (cw, ch, pw, ph)) ->
  Classifier.is_simple_content_default cw ch = true ->
  (forall w t w1,
     V2.ocr_simple E cropped w = (Ok t, w1) ->
     (strip t = "" ->
      forall u w2,
        V2.ocr_complex E cropped (snd (V2.emit V2.EasyOCREmpty w1)) = (Ok u, w2) ->
        V2.ocr_image E image_path w
          = (Ok {| success := true; latex := u; file := image_path;
                   error := None; method := "easyocr+pix2tex";
                   content_size := Some (cw, ch); is_simple := Some true |},
             w2)) /\
     (strip t <> "" ->
      V2.ocr_image E image_path w
        = (Ok {| success := true; latex := strip t; file := image_path;
                 error := None; method := "easyocr";
                 content_size := Some (cw, ch); is_simple := Some true |},
           w1))) /\
  (forall w t w1,
     Service.ocr_simple E cropped w = (Ok t, w1) ->
     (strip t = "" ->
      forall u w2,
        Service.ocr_complex E cropped w1 = (Ok u, w2) ->
        Service.ocr_image E image_path w
          = (Ok {| success := true; latex := u; file := image_path;
                   error := None; method := "easyocr+pix2tex";
                   content_size := None; is_simple := Some true |},
             w2)) /\
     (strip t <> "" ->
      Service.ocr_image E image_path w
        = (Ok {| success := true; latex := strip t; file := image_path;
                 error := None; method := "easyocr";
                 content_size := None; is_simple := Some true |},
           w1))).
Proof.
  intros Hloc Hs. split; intros w t w1 Ht; split.
  - intros Hempty u w2 Hu. apply try_except_ok.
    unfold V2.ocr_image_body. rewrite Hloc.
    rewrite (bind_ok _ _ w _ w (lift_run _ w)). rewrite Hs.
    rewrite (bind_ok _ _ w (u, "easyocr+pix2tex") w2); [reflexivity|].
    run_call Ht. rewrite Hempty. simpl.
    rewrite (bind_ok _ _ w1 (u, "easyocr+pix2tex") w2);
      [now rewrite digit_test_same|].
    rewrite (bind_ok _ _ _ _ _ (V2_emit_run _ _)). now run_call Hu.
  - intros Hne. apply is_empty_false in Hne. apply try_except_ok.
    unfold V2.ocr_image_body. rewrite Hloc.
    rewrite (bind_ok _ _ w _ w (lift_run _ w)). rewrite Hs.
    rewrite (bind_ok _ _ w (strip t, "easyocr") w1); [reflexivity|].
    run_call Ht. rewrite Hne. simpl.
    rewrite (bind_ok _ _ w1 (strip t, "easyocr") w1);
      [now rewrite digit_test_same|reflexivity].
  - intros Hempty u w2 Hu. apply try_except_ok.
    unfold Service.ocr_image_body. rewrite Hloc.
    rewrite (bind_ok _ _ w _ w (lift_run _ w)). rewrite Hs.
    rewrite (bind_ok _ _ w (u, "easyocr+pix2tex") w2); [reflexivity|].
    run_call Ht. rewrite Hempty. simpl.
    rewrite (bind_ok _ _ w1 (u, "easyocr+pix2tex") w2); [reflexivity|].
    now run_call Hu.
  - intros Hne. apply is_empty_false in Hne. apply try_except_ok.
    unfold Service.ocr_image_body. rewrite Hloc.
    rewrite (bind_ok _ _ w _ w (lift_run _ w)). rewrite Hs.
    rewrite (bind_ok _ _ w (strip t, "easyocr") w1); [reflexivity|].
    run_call Ht. rewrite Hne. simpl.
    rewrite (bind_ok _ _ w1 (strip t, "easyocr") w1); reflexivity.
Qed.

(** ** The text-engine adapter *)

Lemma Qltb_lt a b : Qltb a b = true <-> (a < b)%Q.
Proof.
  unfold Qltb. rewrite negb_true_iff, <- not_true_iff_false, Qle_bool_iff.
  split; [apply Qnot_le_lt | apply Qlt_not_le].
Qed.

Lemma Qltb_ge a b : Qltb a b = false <-> (b <= a)%Q.
Proof. unfold Qltb. now rewrite negb_false_iff, Qle_bool_iff. Qed.

(** The head of the sorted list is the first element of maximal key. *)
Lemma sort_desc_head (x : string * Q) (l : list (string * Q)) :
  exists i t rest,
    sort_desc (x :: l) = t :: rest /\ first_best snd (x :: l) i t.
Proof.
  revert x. induction l as [|y l IH]; intros x.
  - exists 0%nat, x, []. split; [reflexivity|]. repeat split.
    + intros [|j] z Hz; simpl in Hz; [|discriminate].
      inversion Hz; subst. apply Qle_refl.
    + intros j z Hj. lia.
  - destruct (IH y) as (i & t & rest & Hsort & Hi & Hmax & Hbefore).
    change (sort_desc (x :: y :: l)) with (insert_desc x (sort_desc (y :: l))).
    rewrite Hsort. simpl. destruct (Qltb (snd x) (snd t)) eqn:Hlt.
    + apply Qltb_lt in Hlt.
      exists (S i), t, (insert_desc x rest). split; [reflexivity|].
      repeat split.
      * exact Hi.
      * intros [|j] z Hz; simpl in Hz.
        -- inversion Hz; subst. now apply Qlt_le_weak.
        -- eapply Hmax; eauto.
      * intros [|j] z Hj Hz; simpl in Hz.
        -- now inversion Hz; subst.
        -- eapply Hbefore; [|exact Hz]. lia.
    + apply Qltb_ge in Hlt.
      exists 0%nat, x, (t :: rest). split; [reflexivity|]. repeat split.
      * intros [|j] z Hz; simpl in Hz.
        -- inversion Hz; subst. apply Qle_refl.
        -- eapply Qle_trans; [|exact Hlt]. eapply Hmax; eauto.
      * intros j z Hj. lia.
Qed.

Lemma first_best_map {A B} (f : A -> B) (conf : B -> Q) (l : list A) i y :
  first_best conf (map f l) i y ->
  exists x, y = f x /\ first_best (fun a => conf (f a)) l i x.
Proof.
  intros (Hi & Hmax & Hbefore).
  change (map f l) with (f <$> l) in *.
  rewrite list_lookup_fmap in Hi.
  destruct (l !! i) as [x|] eqn:Hx; [|discriminate].
  simpl in Hi. inversion Hi; subst. exists x. split; [reflexivity|].
  repeat split.
  - exact Hx.
  - intros j z Hz. apply (Hmax j (f z)).
    now rewrite list_lookup_fmap, Hz.
  - intros j z Hj Hz. apply (Hbefore j (f z) Hj).
    now rewrite list_lookup_fmap, Hz.
Qed.

Lemma best_text_picks_best (result : list region) :
  picks_best result (best_text result).
Proof.
  destruct result as [|r0 result]; [reflexivity|].
  unfold picks_best, best_text.
  set (f := fun r : region => (snd (fst r), snd r)).
  change (map f (r0 :: result)) with (f r0 :: map f result).
  destruct (sort_desc_head (f r0) (map f result))
    as (i & t & rest & Hsort & Hbest).
  rewrite Hsort.
  change (f r0 :: map f result) with (map f (r0 :: result)) in Hbest.
  apply first_best_map in Hbest as (r & -> & Hbest).
  exists i, r. split; [exact Hbest|reflexivity].
Qed.

(** C8: the text-engine adapter returns, for a non-empty list of
    regions, the text of a region of maximal confidence, the earliest of
    them in the engine's list, and the empty string for an empty list. *)
Theorem text_adapter_returns_most_confident
    (E : Env) (cropped : Image) (reader : Reader) (result : list region) :
  readtext E reader (as_RGB cropped) = Ok result ->
  (forall w w1,
     V2.ensure_easyocr E w = (Ok tt, w1) ->
     V2.easyocr_reader (V2.self w1) = Some reader ->
     exists t, V2.ocr_simple E cropped w = (Ok t, w1) /\ picks_best result t) /\
  (forall w,
     Service.easyocr_reader (Service.self w) = Some reader ->
     exists t, Service.ocr_simple E cropped w = (Ok t, w) /\ picks_best result t).
Proof.
  intros Hread. split.
  - intros w w1 Hload Hreader. exists (best_text result).
    split; [|apply best_text_picks_best].
    unfold V2.ocr_simple. run_call Hload.
    unfold bind at 1, get. rewrite Hreader.
    unfold bind, lift. now rewrite Hread.
  - intros w Hreader. exists (best_text result).
    split; [|apply best_text_picks_best].
    unfold Service.ocr_simple.
    unfold bind at 1, get. rewrite Hreader.
    unfold bind, lift. now rewrite Hread.
Qed.

(** ** The content locator *)

Lemma in_range (n x : Z) : In x (range n) <-> 0 <= x < n.
Proof.
  unfold range. rewrite in_map_iff. split.
  - intros (k & <- & Hk). apply in_seq in Hk. lia.
  - intros Hx. exists (Z.to_nat x). split; [lia|]. apply in_seq. lia.
Qed.

(** A property that every loop step keeps holds after the loop. *)
Lemma fold_left_invariant {A B} (P : A -> Prop) (f : A -> B -> A) (l : list B) :
  (forall a x, In x l -> P a -> P (f a x)) ->
  forall a, P a -> P (fold_left f l a).
Proof.
  induction l as [|x l IH]; intros Hstep a Ha; [exact Ha|].
  simpl. apply IH.
  - intros a' x' Hin. apply Hstep. now right.
  - apply Hstep; [now left|exact Ha].
Qed.

(** The scan keeps any property that the update at a content pixel keeps. *)
Lemma content_bounds_invariant (img : Image) (threshold : Z) (P : bounds -> Prop) :
  (forall b x y,
     is_content img threshold x y -> P b ->
     P {| min_x := Z.min (min_x b) x; min_y := Z.min (min_y b) y;
          max_x := Z.max (max_x b) x; max_y := Z.max (max_y b) y |}) ->
  P {| min_x := fst (img_size img); min_y := snd (img_size img);
       max_x := 0; max_y := 0 |} ->
  P (content_bounds img threshold).
Proof.
  intros Hstep Hinit. unfold content_bounds, is_content in *.
  destruct (img_size img) as [w h]. simpl in *.
  apply fold_left_invariant; [|exact Hinit].
  intros b y Hy Hb. unfold scan_row.
  apply fold_left_invariant; [|exact Hb].
  intros b' x Hx Hb'. unfold scan_pixel.
  destruct (img_load img x y <? threshold) eqn:Hpix; [|exact Hb'].
  apply in_range in Hx, Hy. apply Z.ltb_lt in Hpix.
  apply Hstep; [|exact Hb']. lia.
Qed.

(** Content confined to one row leaves [max_y <= min_y]. *)
Lemma content_in_one_row (img : Image) (threshold y0 : Z) :
  0 <= y0 < snd (img_size img) ->
  (forall x y, is_content img threshold x y -> y = y0) ->
  max_y (content_bounds img threshold) <= min_y (content_bounds img threshold).
Proof.
  intros Hy0 Hrow.
  assert (H : (min_y (content_bounds img threshold) = snd (img_size img)
               /\ max_y (content_bounds img threshold) = 0)
              \/ (min_y (content_bounds img threshold) = y0
                  /\ max_y (content_bounds img threshold) = y0)).
  { apply (content_bounds_invariant img threshold
             (fun b => (min_y b = snd (img_size img) /\ max_y b = 0)
                       \/ (min_y b = y0 /\ max_y b = y0))).
    - intros b x y Hc Hb. simpl. apply Hrow in Hc. subst. lia.
    - simpl. now left. }
  lia.
Qed.

(** Content confined to one column leaves [max_x <= min_x]. *)
Lemma content_in_one_column (img : Image) (threshold x0 : Z) :
  0 <= x0 < fst (img_size img) ->
  (forall x y, is_content img threshold x y -> x = x0) ->
  max_x (content_bounds img threshold) <= min_x (content_bounds img threshold).
Proof.
  intros Hx0 Hcol.
  assert (H : (min_x (content_bounds img threshold) = fst (img_size img)
               /\ max_x (content_bounds img threshold) = 0)
              \/ (min_x (content_bounds img threshold) = x0
                  /\ max_x (content_bounds img threshold) = x0)).
  { apply (content_bounds_invariant img threshold
             (fun b => (min_x b = fst (img_size img) /\ max_x b = 0)
                       \/ (min_x b = x0 /\ max_x b = x0))).
    - intros b x y Hc Hb. simpl. apply Hcol in Hc. subst. lia.
    - simpl. now left. }
  lia.
Qed.

(** C10: an image that has pixels darker than the threshold, all of them
    in a single row or all of them in a single column (one dark pixel,
    for instance), is reported as having no content: no crop, and the
    four dimensions zero. *)
Theorem locate_misses_content_on_a_line
    (E : Env) (image_path : string) (img : Image) (padding threshold : Z) :
  Image_open E image_path = Ok img ->
  (exists x y, is_content img threshold x y) ->
  (exists y0, forall x y, is_content img threshold x y -> y = y0) \/
  (exists x0, forall x y, is_content img threshold x y -> x = x0) ->
  crop_to_content E image_path padding threshold = Ok (None, (0, 0, 0, 0)).
Proof.
  intros Hopen (x1 & y1 & Hdark) Hline.
  unfold crop_to_content. rewrite Hopen. f_equal.
  unfold crop_image.
  change (img_size (convert L img)) with (img_size img).
  change (content_bounds (convert L img) threshold)
    with (content_bounds img threshold).
  destruct (img_size img) as [w h] eqn:Hsize.
  assert (Hdeg : max_x (content_bounds img threshold)
                   <= min_x (content_bounds img threshold)
                 \/ max_y (content_bounds img threshold)
                   <= min_y (content_bounds img threshold)).
  { destruct Hline as [[y0 Hrow]|[x0 Hcol]].
    - right. apply (content_in_one_row img threshold y0); [|exact Hrow].
      rewrite <- (Hrow x1 y1 Hdark). apply Hdark.
    - left. apply (content_in_one_column img threshold x0); [|exact Hcol].
      rewrite <- (Hcol x1 y1 Hdark). apply Hdark. }
  destruct Hdeg as [Hdeg|Hdeg]; apply Z.leb_le in Hdeg; rewrite Hdeg;
    [reflexivity|now rewrite orb_true_r].
Qed.

(** ** The life cycle of the engines *)

Section Preservation.
Context {St : Type} (Inv : St -> Prop).

Lemma preserves_ret {A} (a : A) : preserves Inv (ret a).
Proof. intros s r s' Hs H. now inversion H; subst. Qed.

Lemma preserves_raise {A} (e : exn) : preserves Inv (@raise St A e).
Proof. intros s r s' Hs H. now inversion H; subst. Qed.

Lemma preserves_lift {A} (x : res A) : preserves Inv (lift x).
Proof. intros s r s' Hs H. now inversion H; subst. Qed.

Lemma preserves_get : preserves Inv get.
Proof. intros s r s' Hs H. now inversion H; subst. Qed.

Lemma preserves_bind {A B} (c : M St A) (k : A -> M St B) :
  preserves Inv c -> (forall a, preserves Inv (k a)) -> preserves Inv (bind c k).
Proof.
  intros Hc Hk s r s' Hs H. unfold bind in H.
  destruct (c s) as [[a|e] s1] eqn:Hcs.
  - eapply Hk; [|exact H]. eapply Hc; eauto.
  - inversion H; subst. eapply Hc; eauto.
Qed.

Lemma preserves_try_except {A} (body : M St A) handler :
  preserves Inv body -> (forall msg, preserves Inv (handler msg)) ->
  preserves Inv (try_except body handler).
Proof.
  intros Hb Hh s r s' Hs H. unfold try_except in H.
  destruct (body s) as [[a|[cls msg|]] s1] eqn:Hbs.
  - inversion H; subst. eapply Hb; eauto.
  - eapply Hh; [|exact H]. eapply Hb; eauto.
  - inversion H; subst. eapply Hb; eauto.
Qed.

Lemma preserves_try_finally {A} (body : M St A) fin :
  preserves Inv body -> preserves Inv fin -> preserves Inv (try_finally body fin).
Proof.
  intros Hb Hf s r s' Hs H. unfold try_finally in H.
  destruct (body s) as [rb s1] eqn:Hbs.
  assert (Hs1 : Inv s1) by (eapply Hb; eauto).
  destruct (fin s1) as [[[]|e] s2] eqn:Hfs;
    inversion H; subst; eapply Hf; eauto.
Qed.

Lemma preserves_for_each {A B} (xs : list A) (body : A -> B -> M St B) :
  (forall x acc, preserves Inv (body x acc)) ->
  forall acc, preserves Inv (for_each xs body acc).
Proof.
  intros Hbody. induction xs as [|x xs IH]; intros acc; simpl.
  - apply preserves_ret.
  - apply preserves_bind; [apply Hbody|exact IH].
Qed.
End Preservation.

Lemma V2_emit_preserves ev : preserves V2_inv (V2.emit ev).
Proof. intros s r s' Hs H. now inversion H; subst. Qed.

Lemma V2_ensure_pix2tex_preserves E : preserves V2_inv (V2.ensure_pix2tex E).
Proof.
  intros [o log] r s' [Hp He] H. unfold V2.ensure_pix2tex in H.
  unfold bind at 1, get in H. simpl in H.
  destruct (V2.pix2tex_initialized o) eqn:Hflag.
  - inversion H; subst. now split.
  - destruct (PIX2TEX_AVAILABLE E); simpl in H.
    + unfold bind, V2.emit, V2.update, modify, lift in H. simpl in H.
      destruct (new_LatexOCR E) as [m|e]; inversion H; subst; now split.
    + inversion H; subst. now split.
Qed.

Lemma V2_ensure_easyocr_preserves E : preserves V2_inv (V2.ensure_easyocr E).
Proof.
  intros [o log] r s' [Hp He] H. unfold V2.ensure_easyocr in H.
  unfold bind at 1, get in H. simpl in H.
  destruct (V2.easyocr_initialized o) eqn:Hflag.
  - inversion H; subst. now split.
  - destruct (EASYOCR_AVAILABLE E); simpl in H.
    + unfold bind, V2.emit, V2.update, modify, lift in H. simpl in H.
      destruct (new_Reader E) as [m|e]; inversion H; subst; now split.
    + inversion H; subst. now split.
Qed.

(** What [cleanup] does to a store, in one step. *)
Lemma V2_cleanup_run (w : V2.world) :
  V2.cleanup w =
  (Ok tt,
   {| V2.self :=
        {| V2.pix2tex_model := None;
           V2.easyocr_reader := None;
           V2.pix2tex_initialized :=
             if holds (V2.pix2tex_model (V2.self w)) then false
             else V2.pix2tex_initialized (V2.self w);
           V2.easyocr_initialized :=
             if holds (V2.easyocr_reader (V2.self w)) then false
             else V2.easyocr_initialized (V2.self w) |};
      V2.trace := V2.trace w ++ [V2.CleaningUp; V2.ClearGpuMemory] |}).
Proof.
  destruct w as [[[m|] [r|] fp fe] log];
    unfold V2.cleanup, bind, get, V2.emit, V2.update, modify; simpl;
    now rewrite <- app_assoc.
Qed.

Lemma V2_cleanup_preserves : preserves V2_inv V2.cleanup.
Proof.
  intros w r s' [Hp He] H. rewrite V2_cleanup_run in H.
  inversion H; subst. split; simpl.
  - destruct (holds (V2.pix2tex_model (V2.self w))); congruence.
  - destruct (holds (V2.easyocr_reader (V2.self w))); congruence.
Qed.

Lemma V2_ocr_simple_preserves E img : preserves V2_inv (V2.ocr_simple E img).
Proof.
  unfold V2.ocr_simple.
  apply preserves_bind; [apply V2_ensure_easyocr_preserves|intros _].
  apply preserves_bind; [apply preserves_get|intros w].
  destruct (V2.easyocr_reader (V2.self w)); [|apply preserves_raise].
  apply preserves_bind; [apply preserves_lift|intros result].
  apply preserves_ret.
Qed.

Lemma V2_ocr_complex_preserves E img : preserves V2_inv (V2.ocr_complex E img).
Proof.
  unfold V2.ocr_complex.
  apply preserves_bind; [apply V2_ensure_pix2tex_preserves|intros _].
  apply preserves_bind; [apply preserves_get|intros w].
  destruct (V2.pix2tex_model (V2.self w));
    [apply preserves_lift|apply preserves_raise].
Qed.

Lemma V2_ocr_image_preserves E image_path :
  preserves V2_inv (V2.ocr_image E image_path).
Proof.
  unfold V2.ocr_image.
  apply preserves_try_except; [|intros msg; apply preserves_ret].
  unfold V2.ocr_image_body.
  apply preserves_bind; [apply preserves_lift|].
  intros [[cropped|] [[[cw ch] pw] ph]]; [|apply preserves_ret].
  apply preserves_bind; [|intros [latex method]; apply preserves_ret].
  destruct (Classifier.is_simple_content_default cw ch).
  - apply preserves_bind; [apply V2_ocr_simple_preserves|intros text].
    apply preserves_bind; [|intros [text' method]; apply preserves_ret].
    destruct (is_empty (strip text)); [|apply preserves_ret].
    apply preserves_bind; [apply V2_emit_preserves|intros _].
    apply preserves_bind; [apply V2_ocr_complex_preserves|intros u].
    apply preserves_ret.
  - apply preserves_bind; [apply V2_ocr_complex_preserves|intros u].
    apply preserves_ret.
Qed.

Lemma V2_process_file_preserves E total item v :
  preserves V2_inv (V2.process_file E total item v).
Proof.
  destruct item as [i img_path]. unfold V2.process_file.
  apply preserves_bind; [apply V2_emit_preserves|intros _].
  apply preserves_bind; [apply V2_ocr_image_preserves|intros result].
  apply preserves_ret.
Qed.

Lemma V2_ocr_directory_preserves E directory pattern auto_cleanup :
  preserves V2_inv (V2.ocr_directory E directory pattern auto_cleanup).
Proof.
  unfold V2.ocr_directory.
  destruct (negb (path_exists E directory)); [apply preserves_raise|].
  destruct (Pathlib.sorted (glob E directory pattern)) as [|p ps];
    [apply preserves_ret|].
  apply preserves_bind; [|intros v; apply preserves_ret].
  apply preserves_try_finally.
  - apply preserves_for_each. intros item v.
    apply V2_process_file_preserves.
  - destruct auto_cleanup; [apply V2_cleanup_preserves|apply preserves_ret].
Qed.

(** In every reachable state each flag tells whether its engine is held. *)
Lemma V2_reachable_flags_agree E w : V2_reachable E w -> V2_inv w.
Proof.
  induction 1 as [|w r w' _ IH H|w r w' _ IH H|w r w' _ IH H
                  |img w r w' _ IH H|img w r w' _ IH H
                  |image_path w r w' _ IH H
                  |directory pattern auto_cleanup w r w' _ IH H].
  - now split.
  - eapply V2_ensure_pix2tex_preserves; eauto.
  - eapply V2_ensure_easyocr_preserves; eauto.
  - eapply V2_cleanup_preserves; eauto.
  - eapply V2_ocr_simple_preserves; eauto.
  - eapply V2_ocr_complex_preserves; eauto.
  - eapply V2_ocr_image_preserves; eauto.
  - eapply V2_ocr_directory_preserves; eauto.
Qed.

(** C7: [cleanup] never raises, and in any state a [HybridOCR] object
    can reach, the engines loaded or not, it leaves both engines not
    loaded (handles [None], flags false); calling it a second time, or on
    a fresh object, again does not raise and leaves that state. *)
Theorem cleanup_idempotent_and_total (E : Env) (w : V2.world) :
  V2_reachable E w ->
  let w1 := snd (V2.cleanup w) in
  let w2 := snd (V2.cleanup w1) in
  fst (V2.cleanup w) = Ok tt /\ V2.self w1 = V2.init /\
  fst (V2.cleanup w1) = Ok tt /\ V2.self w2 = V2.init /\
  V2.cleanup V2.fresh
    = (Ok tt, {| V2.self := V2.init;
                 V2.trace := [V2.CleaningUp; V2.ClearGpuMemory] |}).
Proof.
  intros Hreach. apply V2_reachable_flags_agree in Hreach as [Hp He].
  cbv zeta. rewrite !V2_cleanup_run. simpl.
  rewrite Hp, He.
  destruct (holds (V2.pix2tex_model (V2.self w)));
    destruct (holds (V2.easyocr_reader (V2.self w))); repeat split.
Qed.

(** ** The order of paths *)

Lemma string_compare_OT (a b : string) :
  String.compare a b = String_as_OT.compare a b.
Proof.
  revert b. induction a as [|c a IH]; intros [|d b]; simpl; reflexivity.
Qed.

Lemma string_compare_refl (a : string) : String.compare a a = Eq.
Proof.
  destruct (String.compare a a) eqn:H; [reflexivity| |].
  - rewrite string_compare_OT in H.
    now apply (StrictOrder_Irreflexive (R := String_as_OT.lt)) in H.
  - rewrite String.compare_antisym in H.
    destruct (String.compare a a) eqn:H'; try discriminate.
    rewrite string_compare_OT in H'.
    now apply (StrictOrder_Irreflexive (R := String_as_OT.lt)) in H'.
Qed.

Lemma string_compare_lt_trans (a b c : string) :
  String.compare a b = Lt -> String.compare b c = Lt -> String.compare a c = Lt.
Proof.
  rewrite !string_compare_OT.
  apply (StrictOrder_Transitive (R := String_as_OT.lt)).
Qed.

Lemma list_compare_refl (p : list string) : list_compare p p = Eq.
Proof.
  induction p as [|x p IH]; simpl; [reflexivity|].
  now rewrite string_compare_refl.
Qed.

Lemma list_compare_eq (p q : list string) : list_compare p q = Eq -> p = q.
Proof.
  revert q. induction p as [|x p IH]; intros [|y q]; simpl; try congruence.
  destruct (String.compare x y) eqn:Hxy; try discriminate.
  intros H. apply String.compare_eq_iff in Hxy. f_equal; auto.
Qed.

Lemma list_compare_antisym (p q : list string) :
  list_compare p q = CompOpp (list_compare q p).
Proof.
  revert q. induction p as [|x p IH]; intros [|y q]; simpl; try reflexivity.
  rewrite String.compare_antisym.
  destruct (String.compare y x); simpl; [apply IH|reflexivity|reflexivity].
Qed.

Lemma list_compare_lt_trans (p q r : list string) :
  list_compare p q = Lt -> list_compare q r = Lt -> list_compare p r = Lt.
Proof.
  revert q r. induction p as [|x p IH]; intros [|y q] [|z r]; simpl;
    try congruence.
  destruct (String.compare x y) eqn:Hxy; try discriminate.
  - apply String.compare_eq_iff in Hxy. subst y.
    destruct (String.compare x z); try congruence. apply IH.
  - destruct (String.compare y z) eqn:Hyz; try discriminate.
    + apply String.compare_eq_iff in Hyz. subst z. now rewrite Hxy.
    + now rewrite (string_compare_lt_trans x y z Hxy Hyz).
Qed.

#[local] Instance path_le_total : Total Pathlib.path_le.
Proof.
  intros p q. unfold Pathlib.path_le, Pathlib.path_leb.
  rewrite (list_compare_antisym q p).
  destruct (list_compare p q); simpl; auto.
Qed.

#[local] Instance path_le_trans : Transitive Pathlib.path_le.
Proof.
  intros p q r. unfold Pathlib.path_le, Pathlib.path_leb.
  destruct (list_compare p q) eqn:Hpq; try discriminate; intros _.
  - apply list_compare_eq in Hpq. now subst.
  - destruct (list_compare q r) eqn:Hqr; try discriminate; intros _.
    + apply list_compare_eq in Hqr. subst. now rewrite Hpq.
    + now rewrite (list_compare_lt_trans p q r Hpq Hqr).
Qed.

#[local] Instance path_le_antisym : AntiSymm (=) Pathlib.path_le.
Proof.
  intros p q. unfold Pathlib.path_le, Pathlib.path_leb.
  rewrite (list_compare_antisym q p).
  destruct (list_compare p q) eqn:Hpq; simpl; try discriminate.
  intros _ _. now apply list_compare_eq.
Qed.

Lemma sorted_perm (ps : list Pathlib.Path) : Pathlib.sorted ps ≡ₚ ps.
Proof. apply merge_sort_Permutation. Qed.

Lemma sorted_ascending (ps : list Pathlib.Path) :
  StronglySorted Pathlib.path_le (Pathlib.sorted ps).
Proof. apply StronglySorted_merge_sort; apply _. Qed.

(** [sorted] does not depend on the order of its argument. *)
Lemma sorted_enumeration (ps qs : list Pathlib.Path) :
  ps ≡ₚ qs -> Pathlib.sorted ps = Pathlib.sorted qs.
Proof.
  intros Hperm.
  apply (StronglySorted_unique Pathlib.path_le); try apply sorted_ascending.
  now rewrite !sorted_perm.
Qed.

(** Among the children of one directory, paths compare as their names. *)
Lemma path_le_same_parent (parent : list string) (a b : string) :
  Pathlib.path_le (parent ++ [a])%list (parent ++ [b])%list
  <-> String.leb a b = true.
Proof.
  unfold Pathlib.path_le, Pathlib.path_leb, String.leb.
  induction parent as [|x parent IH]; simpl.
  - destruct (String.compare a b); simpl; split; congruence.
  - now rewrite string_compare_refl.
Qed.

Lemma name_child (parent : list string) (a : string) :
  Pathlib.name (parent ++ [a])%list = a.
Proof. unfold Pathlib.name. apply last_last. Qed.

(** ** The batch runner *)

Lemma record_result_results n r v :
  v_results (record_result n r v) = <[n := file_entry r]> (v_results v).
Proof.
  unfold record_result, file_entry.
  destruct (success r); [|reflexivity].
  now destruct (truthy (is_simple r)).
Qed.

Lemma record_result_errors n r v :
  v_errors (record_result n r v)
  = (v_errors v ++ (if success r then [] else [(n, error r)]))%list.
Proof.
  unfold record_result.
  destruct (success r); [|reflexivity].
  destruct (truthy (is_simple r)); simpl; now rewrite app_nil_r.
Qed.

Lemma record_all_errors names rs v :
  v_errors (record_all names rs v)
  = (v_errors v ++ error_records names rs)%list.
Proof.
  revert rs v. induction names as [|n names IH]; intros [|r rs] v; simpl;
    try now rewrite app_nil_r.
  rewrite IH, record_result_errors.
  destruct (success r); simpl; [now rewrite app_nil_r|].
  now rewrite <- app_assoc.
Qed.

(** A name that is not processed keeps its entry. *)
Lemma record_all_other names rs v k :
  k ∉ names -> v_results (record_all names rs v) !! k = v_results v !! k.
Proof.
  revert rs v. induction names as [|n names IH]; intros [|r rs] v Hk; simpl;
    try reflexivity.
  rewrite IH by set_solver.
  rewrite record_result_results. apply lookup_insert_ne. set_solver.
Qed.

(** With distinct names, each file keeps the entry of its own result. *)
Lemma record_all_lookup names rs v i n r :
  NoDup names -> names !! i = Some n -> rs !! i = Some r ->
  v_results (record_all names rs v) !! n = Some (file_entry r).
Proof.
  revert rs v i.
  induction names as [|n0 names IH]; intros [|r0 rs] v i Hnd Hn Hr;
    try discriminate.
  apply NoDup_cons in Hnd as [Hfresh Hnd]. simpl.
  destruct i as [|i]; simpl in Hn, Hr.
  - inversion Hn; inversion Hr; subst.
    rewrite record_all_other by exact Hfresh.
    rewrite record_result_results. apply lookup_insert_eq.
  - eapply IH; eauto.
Qed.

(** The keys after the loop are the keys before it and the names. *)
Lemma record_all_dom names rs v :
  length rs = length names ->
  dom (v_results (record_all names rs v))
  = dom (v_results v) ∪ list_to_set names.
Proof.
  revert rs v. induction names as [|n names IH]; intros [|r rs] v Hlen;
    try discriminate; simpl.
  - set_solver.
  - rewrite IH by (simpl in Hlen; lia).
    rewrite record_result_results, dom_insert_L. set_solver.
Qed.

Lemma error_records_names names rs :
  map fst (error_records names rs) `sublist_of` names.
Proof.
  revert rs. induction names as [|n names IH]; intros [|r rs]; simpl;
    try apply sublist_nil_l.
  destruct (success r); simpl.
  - apply sublist_cons, IH.
  - apply sublist_skip, IH.
Qed.

(** The report built from the locals after the loop. *)
Lemma report_of_matches (files : list Pathlib.Path) (rs : list OcrResult) :
  NoDup (map Pathlib.name files) ->
  length rs = length files ->
  Forall failure_has_message rs ->
  report_matches files rs
    (report_of (record_all (map Pathlib.name files) rs loop_start)).
Proof.
  intros Hnd Hlen Hmsg.
  set (v := record_all (map Pathlib.name files) rs loop_start).
  assert (Hdom : dom (v_results v) = list_to_set (map Pathlib.name files)).
  { unfold v. rewrite record_all_dom by now rewrite length_map.
    simpl. set_solver. }
  assert (Hsize : size (v_results v) = length files).
  { rewrite <- size_dom, Hdom, size_list_to_set by exact Hnd.
    apply length_map. }
  unfold report_matches, report_of. simpl.
  repeat split; auto.
  - intros i f r Hf Hr. unfold v.
    apply (record_all_lookup _ _ _ i); auto.
    change (map Pathlib.name files) with (Pathlib.name <$> files).
    now rewrite list_lookup_fmap, Hf.
  - intros k Hk. apply elem_of_dom in Hk. rewrite Hdom in Hk.
    apply elem_of_list_to_set in Hk.
    change (map Pathlib.name files) with (Pathlib.name <$> files) in Hk.
    apply list_elem_of_fmap in Hk as (f & -> & Hf). now exists f.
  - unfold v. now rewrite record_all_errors.
Qed.

Lemma ret_inv {St A} (a b : A) (s s' : St) :
  ret a s = (Ok b, s') -> a = b /\ s = s'.
Proof. intros H. inversion H. now split. Qed.

Lemma V2_ocr_image_failure E image_path w r w' :
  V2.ocr_image E image_path w = (Ok r, w') -> failure_has_message r.
Proof.
  unfold V2.ocr_image, try_except.
  destruct (V2.ocr_image_body E image_path w) as [[r0|[cls msg|]] w0] eqn:Hbody;
    intros H; [| |discriminate].
  - inversion H; subst. clear H. unfold V2.ocr_image_body in Hbody.
    apply bind_inv_ok in Hbody
      as ([[cropped|] [[[cw ch] pw] ph]] & w1 & _ & Hk).
    + apply bind_inv_ok in Hk as ([latex method] & w2 & _ & Hk).
      apply ret_inv in Hk as [<- _]. intros Hs. discriminate.
    + apply ret_inv in Hk as [<- _]. intros _.
      now exists "No content found".
  - apply ret_inv in H as [<- _]. intros _. now exists msg.
Qed.

Lemma Service_ocr_image_failure E image_path w r w' :
  Service.ocr_image E image_path w = (Ok r, w') -> failure_has_message r.
Proof.
  unfold Service.ocr_image, try_except.
  destruct (Service.ocr_image_body E image_path w)
    as [[r0|[cls msg|]] w0] eqn:Hbody; intros H; [| |discriminate].
  - inversion H; subst. clear H. unfold Service.ocr_image_body in Hbody.
    apply bind_inv_ok in Hbody
      as ([[cropped|] [[[cw ch] pw] ph]] & w1 & _ & Hk).
    + apply bind_inv_ok in Hk as ([latex method] & w2 & _ & Hk).
      apply ret_inv in Hk as [<- _]. intros Hs. discriminate.
    + apply ret_inv in Hk as [<- _]. intros _.
      now exists "No content found".
  - apply ret_inv in H as [<- _]. intros _. now exists msg.
Qed.

Lemma V2_batch_length E total items w rs w' :
  V2_batch E total items w rs w' ->
  length rs = length items /\ Forall failure_has_message rs.
Proof.
  induction 1 as [|i p items w r w1 rs w2 Hr _ [IHlen IHmsg]].
  - now split.
  - split; [simpl; now rewrite IHlen|].
    constructor; [|exact IHmsg]. eapply V2_ocr_image_failure; eauto.
Qed.

Lemma Service_batch_length E total items w rs w' :
  Service_batch E total items w rs w' ->
  length rs = length items /\ Forall failure_has_message rs.
Proof.
  induction 1 as [|i p items w r w1 rs w2 Hr _ [IHlen IHmsg]].
  - now split.
  - split; [simpl; now rewrite IHlen|].
    constructor; [|exact IHmsg]. eapply Service_ocr_image_failure; eauto.
Qed.

(** A completed loop called [ocr_image] on each file in turn and
    recorded each result. *)
Lemma V2_loop_completes E total items v w v' w' :
  for_each items (V2.process_file E total) v w = (Ok v', w') ->
  exists rs,
    V2_batch E total items w rs w'
    /\ v' = record_all (map (fun it => Pathlib.name (snd it)) items) rs v.
Proof.
  revert v w. induction items as [|[i p] items IH]; intros v w H; simpl in H.
  - apply ret_inv in H as [<- <-]. exists []. split; [constructor|reflexivity].
  - apply bind_inv_ok in H as (v1 & w1 & Hstep & Hrest).
    unfold V2.process_file in Hstep.
    apply bind_inv_ok in Hstep as ([] & w0 & Hprint & Hstep).
    apply bind_inv_ok in Hstep as (r & w2 & Himg & Hret).
    apply ret_inv in Hret as [<- <-].
    apply IH in Hrest as (rs & Hbatch & ->).
    exists (r :: rs). split; [|reflexivity].
    econstructor; [|exact Hbatch].
    rewrite (V2_emit_run _ w) in Hprint. inversion Hprint; subst.
    exact Himg.
Qed.

Lemma Service_loop_completes E total items v w v' w' :
  for_each items (Service.process_file E total) v w = (Ok v', w') ->
  exists rs,
    Service_batch E total items w rs w'
    /\ v' = record_all (map (fun it => Pathlib.name (snd it)) items) rs v.
Proof.
  revert v w. induction items as [|[i p] items IH]; intros v w H; simpl in H.
  - apply ret_inv in H as [<- <-]. exists []. split; [constructor|reflexivity].
  - apply bind_inv_ok in H as (v1 & w1 & Hstep & Hrest).
    unfold Service.process_file in Hstep.
    apply bind_inv_ok in Hstep as ([] & w0 & Hprint & Hstep).
    apply bind_inv_ok in Hstep as (r & w2 & Himg & Hret).
    apply ret_inv in Hret as [<- <-].
    apply IH in Hrest as (rs & Hbatch & ->).
    exists (r :: rs). split; [|reflexivity].
    econstructor; [|exact Hbatch].
    inversion Hprint; subst. exact Himg.
Qed.

Lemma enumerate_names {A} (f : A -> string) (xs : list A) (k : nat) :
  map (fun it => f (snd it)) (enumerate xs k) = map f xs.
Proof.
  revert k. induction xs as [|x xs IH]; intros k; simpl; [reflexivity|].
  now rewrite IH.
Qed.

Lemma enumerate_length {A} (xs : list A) (k : nat) :
  length (enumerate xs k) = length xs.
Proof.
  revert k. induction xs as [|x xs IH]; intros k; simpl; [reflexivity|].
  now rewrite IH.
Qed.

Lemma try_finally_inv_ok {St A} (body : M St A) fin s a s2 :
  try_finally body fin s = (Ok a, s2) ->
  exists s1, body s = (Ok a, s1) /\ fin s1 = (Ok tt, s2).
Proof.
  unfold try_finally. destruct (body s) as [r s1].
  destruct (fin s1) as [[[]|e] s2'] eqn:Hfin; intros H; inversion H; subst.
  now exists s1.
Qed.

Lemma report_matches_empty : report_matches [] [] empty_report.
Proof.
  unfold report_matches, empty_report. simpl. repeat split; auto.
  - intros i f r Hf. discriminate.
  - intros k [x Hx]. now rewrite lookup_empty in Hx.
Qed.

(** A returned report of [HybridOCR.ocr_directory], whatever the names. *)
Lemma V2_directory_returns E directory pattern auto_cleanup w report w' :
  V2.ocr_directory E directory pattern auto_cleanup w = (Ok report, w') ->
  let files := Pathlib.sorted (glob E directory pattern) in
  exists rs w1,
    V2_batch E (length files) (enumerate files 1) w rs w1
    /\ report = match files with
                | [] => empty_report
                | _ :: _ =>
                    report_of (record_all (map Pathlib.name files) rs loop_start)
                end.
Proof.
  unfold V2.ocr_directory.
  destruct (negb (path_exists E directory)); [discriminate|].
  destruct (Pathlib.sorted (glob E directory pattern)) as [|f files] eqn:Hfiles;
    intros H; cbv zeta.
  - apply ret_inv in H as [<- <-]. exists [], w. split; [constructor|reflexivity].
  - apply bind_inv_ok in H as (v & w2 & Hloop & Hret).
    apply ret_inv in Hret as [<- <-].
    apply try_finally_inv_ok in Hloop as (w1 & Hloop & _).
    apply V2_loop_completes in Hloop as (rs & Hbatch & ->).
    exists rs, w1. split; [exact Hbatch|].
    now rewrite enumerate_names.
Qed.

Lemma Service_directory_returns E directory pattern w report w' :
  Service.ocr_directory E directory pattern w = (Ok report, w') ->
  let files := Pathlib.sorted (glob E directory pattern) in
  exists rs w1,
    Service_batch E (length files) (enumerate files 1) w rs w1
    /\ report = match files with
                | [] => empty_report
                | _ :: _ =>
                    report_of (record_all (map Pathlib.name files) rs loop_start)
                end.
Proof.
  unfold Service.ocr_directory.
  destruct (negb (path_exists E directory)); [discriminate|].
  destruct (Pathlib.sorted (glob E directory pattern)) as [|f files] eqn:Hfiles;
    intros H; cbv zeta.
  - apply ret_inv in H as [<- <-]. exists [], w. split; [constructor|reflexivity].
  - apply bind_inv_ok in H as (v & w2 & Hloop & Hret).
    apply bind_inv_ok in Hret as ([] & w3 & _ & Hret).
    apply ret_inv in Hret as [<- <-].
    apply Service_loop_completes in Hloop as (rs & Hbatch & ->).
    exists rs, w2. split; [exact Hbatch|].
    now rewrite enumerate_names.
Qed.

Lemma sorted_names_NoDup (ps : list Pathlib.Path) :
  NoDup (map Pathlib.name ps) -> NoDup (map Pathlib.name (Pathlib.sorted ps)).
Proof.
  intros H.
  change (NoDup (Pathlib.name <$> Pathlib.sorted ps)).
  now rewrite sorted_perm.
Qed.

(** C3, amended: when the discovered files have pairwise distinct names
    (as the direct children of one directory have), a returned report has
    exactly one entry per discovered file, the recognized text for a
    success and "[ERROR: <message>]" for a failure, one error record per
    failed file, [count] equal to the number of discovered files and
    [success_count] equal to [count] minus the number of error records. *)
Theorem batch_report_one_entry_per_file
    (E : Env) (directory pattern : string) :
  NoDup (map Pathlib.name (glob E directory pattern)) ->
  let files := Pathlib.sorted (glob E directory pattern) in
  (forall auto_cleanup w report w',
     V2.ocr_directory E directory pattern auto_cleanup w = (Ok report, w') ->
     exists rs w1,
       V2_batch E (length files) (enumerate files 1) w rs w1
       /\ report_matches files rs report) /\
  (forall w report w',
     Service.ocr_directory E directory pattern w = (Ok report, w') ->
     exists rs w1,
       Service_batch E (length files) (enumerate files 1) w rs w1
       /\ report_matches files rs report).
Proof.
  intros Hnd files. apply sorted_names_NoDup in Hnd. fold files in Hnd.
  split.
  - intros auto_cleanup w report w' H.
    apply V2_directory_returns in H as (rs & w1 & Hbatch & ->).
    fold files in Hbatch |- *. exists rs, w1. split; [exact Hbatch|].
    apply V2_batch_length in Hbatch as [Hlen Hmsg].
    rewrite enumerate_length in Hlen.
    destruct files as [|f files'] eqn:Hfiles.
    + destruct rs; [apply report_matches_empty|discriminate].
    + now apply report_of_matches.
  - intros w report w' H.
    apply Service_directory_returns in H as (rs & w1 & Hbatch & ->).
    fold files in Hbatch |- *. exists rs, w1. split; [exact Hbatch|].
    apply Service_batch_length in Hbatch as [Hlen Hmsg].
    rewrite enumerate_length in Hlen.
    destruct files as [|f files'] eqn:Hfiles.
    + destruct rs; [apply report_matches_empty|discriminate].
    + now apply report_of_matches.
Qed.

Lemma StronglySorted_sublist {A} (R : A -> A -> Prop) (l1 l2 : list A) :
  l1 `sublist_of` l2 -> StronglySorted R l2 -> StronglySorted R l1.
Proof.
  induction 1 as [|x l1 l2 Hsub IH|x l1 l2 Hsub IH]; intros Hsorted.
  - constructor.
  - apply StronglySorted_inv in Hsorted as [Hl2 Hx].
    constructor; [now apply IH|].
    apply Forall_forall. intros y Hy.
    rewrite Forall_forall in Hx. apply Hx.
    now apply (sublist_subseteq _ _ Hsub).
  - apply StronglySorted_inv in Hsorted as [Hl2 _]. now apply IH.
Qed.

(** The children of one directory, in ascending path order, are in
    lexicographic order of their names. *)
Lemma same_parent_names_sorted (parent : list string) (files : list Pathlib.Path) :
  (forall f, f ∈ files -> exists n, f = (parent ++ [n])%list) ->
  StronglySorted Pathlib.path_le files ->
  StronglySorted name_le (map Pathlib.name files).
Proof.
  intros Hchild Hsorted.
  induction Hsorted as [|f files Hsorted IH Hf]; simpl; [constructor|].
  constructor.
  - apply IH. intros g Hg. apply Hchild. now right.
  - destruct (Hchild f) as [a ->]; [now left|].
    rewrite name_child. apply Forall_forall. intros b Hb.
    change (map Pathlib.name files) with (Pathlib.name <$> files) in Hb.
    apply list_elem_of_fmap in Hb as (g & -> & Hg).
    rewrite Forall_forall in Hf.
    destruct (Hchild g) as [b ->]; [now right|].
    rewrite name_child. apply (path_le_same_parent parent a b).
    apply Hf. exact Hg.
Qed.

Lemma V2_directory_enumeration E g directory pattern auto_cleanup w :
  g directory pattern ≡ₚ glob E directory pattern ->
  V2.ocr_directory (with_glob E g) directory pattern auto_cleanup w
  = V2.ocr_directory E directory pattern auto_cleanup w.
Proof.
  intros Hperm. unfold V2.ocr_directory.
  change (glob (with_glob E g) directory pattern) with (g directory pattern).
  rewrite (sorted_enumeration _ _ Hperm). reflexivity.
Qed.

Lemma Service_directory_enumeration E g directory pattern w :
  g directory pattern ≡ₚ glob E directory pattern ->
  Service.ocr_directory (with_glob E g) directory pattern w
  = Service.ocr_directory E directory pattern w.
Proof.
  intros Hperm. unfold Service.ocr_directory.
  change (glob (with_glob E g) directory pattern) with (g directory pattern).
  rewrite (sorted_enumeration _ _ Hperm). reflexivity.
Qed.

Lemma report_errors_of_batch (files : list Pathlib.Path) (rs : list OcrResult) :
  errors (match files with
          | [] => empty_report
          | _ :: _ =>
              report_of (record_all (map Pathlib.name files) rs loop_start)
          end)
  = error_records (map Pathlib.name files) rs.
Proof.
  destruct files as [|f files]; [reflexivity|].
  unfold report_of. cbn [errors]. now rewrite record_all_errors.
Qed.

(** C5, amended: a batch run calls [ocr_image] on the matching files, and
    lists the failed ones in [errors], in ascending order of their paths
    (compared component by component, each component by code points),
    whatever the order in which the directory is enumerated; when all
    matching files are children of one directory, this is the
    lexicographic order of the file names. *)
Theorem batch_runs_in_sorted_order (E : Env) (directory pattern : string) :
  let files := Pathlib.sorted (glob E directory pattern) in
  StronglySorted Pathlib.path_le files /\
  files ≡ₚ glob E directory pattern /\
  (forall g,
     g directory pattern ≡ₚ glob E directory pattern ->
     Pathlib.sorted (g directory pattern) = files /\
     (forall auto_cleanup w,
        V2.ocr_directory (with_glob E g) directory pattern auto_cleanup w
        = V2.ocr_directory E directory pattern auto_cleanup w) /\
     (forall w,
        Service.ocr_directory (with_glob E g) directory pattern w
        = Service.ocr_directory E directory pattern w)) /\
  (forall auto_cleanup w report w',
     V2.ocr_directory E directory pattern auto_cleanup w = (Ok report, w') ->
     exists rs w1,
       V2_batch E (length files) (enumerate files 1) w rs w1
       /\ errors report = error_records (map Pathlib.name files) rs) /\
  (forall w report w',
     Service.ocr_directory E directory pattern w = (Ok report, w') ->
     exists rs w1,
       Service_batch E (length files) (enumerate files 1) w rs w1
       /\ errors report = error_records (map Pathlib.name files) rs) /\
  (forall parent,
     (forall f, f ∈ glob E directory pattern ->
                exists n, f = (parent ++ [n])%list) ->
     StronglySorted name_le (map Pathlib.name files) /\
     (forall auto_cleanup w report w',
        V2.ocr_directory E directory pattern auto_cleanup w = (Ok report, w') ->
        StronglySorted name_le (map fst (errors report))) /\
     (forall w report w',
        Service.ocr_directory E directory pattern w = (Ok report, w') ->
        StronglySorted name_le (map fst (errors report)))).
Proof.
  intros files.
  assert (Hsorted : StronglySorted Pathlib.path_le files)
    by apply sorted_ascending.
  assert (Hperm : files ≡ₚ glob E directory pattern) by apply sorted_perm.
  split; [exact Hsorted|]. split; [exact Hperm|]. split; [|split; [|split]].
  - intros g Hg. split; [now apply sorted_enumeration|]. split.
    + intros auto_cleanup w. now apply V2_directory_enumeration.
    + intros w. now apply Service_directory_enumeration.
  - intros auto_cleanup w report w' H.
    apply V2_directory_returns in H as (rs & w1 & Hbatch & ->).
    exists rs, w1. split; [exact Hbatch|apply report_errors_of_batch].
  - intros w report w' H.
    apply Service_directory_returns in H as (rs & w1 & Hbatch & ->).
    exists rs, w1. split; [exact Hbatch|apply report_errors_of_batch].
  - intros parent Hchild.
    assert (Hnames : StronglySorted name_le (map Pathlib.name files)).
    { apply (same_parent_names_sorted parent); [|exact Hsorted].
      intros f Hf. apply Hchild. now rewrite <- Hperm. }
    split; [exact Hnames|]. split.
    + intros auto_cleanup w report w' H.
      apply V2_directory_returns in H as (rs & w1 & _ & ->).
      rewrite report_errors_of_batch.
      eapply StronglySorted_sublist; [apply error_records_names|exact Hnames].
    + intros w report w' H.
      apply Service_directory_returns in H as (rs & w1 & _ & ->).
      rewrite report_errors_of_batch.
      eapply StronglySorted_sublist; [apply error_records_names|exact Hnames].
Qed.

Lemma try_finally_run {St A} (body : M St A) (fin : M St unit) s r s1 s2 :
  body s = (r, s1) -> fin s1 = (Ok tt, s2) ->
  try_finally body fin s = (r, s2).
Proof. intros Hb Hf. unfold try_finally. now rewrite Hb, Hf. Qed.

(** C6, amended: on an existing directory in which at least one file
    matches the pattern, a batch run with [auto_cleanup] calls [cleanup]
    on the store that the per-file loop leaves, whether the loop
    completes (the report is then returned) or an exception escapes it
    (the exception is then raised again), and [cleanup] is the last thing
    the run does; when no file matches, the run returns the empty report
    and leaves the store as it was, [cleanup] not being called. *)
Theorem batch_cleanup_after_loop
    (E : Env) (directory pattern : string) (w : V2.world) :
  path_exists E directory = true ->
  let files := Pathlib.sorted (glob E directory pattern) in
  let loop :=
    for_each (enumerate files 1) (V2.process_file E (length files)) loop_start in
  (files <> [] ->
   (forall v w1,
      loop w = (Ok v, w1) ->
      V2.ocr_directory E directory pattern true w
        = (Ok (report_of v), snd (V2.cleanup w1))) /\
   (forall e w1,
      loop w = (Raise e, w1) ->
      V2.ocr_directory E directory pattern true w
        = (Raise e, snd (V2.cleanup w1))) /\
   (forall r w',
      V2.ocr_directory E directory pattern true w = (r, w') ->
      cleanup_ran_last w')) /\
  (files = [] ->
   V2.ocr_directory E directory pattern true w = (Ok empty_report, w)).
Proof.
  intros Hexists files loop. split.
  - intros Hfiles.
    assert (Hrun : forall r w1,
               loop w = (r, w1) ->
               V2.ocr_directory E directory pattern true w
               = (match r with
                  | Ok v => Ok (report_of v)
                  | Raise e => Raise e
                  end, snd (V2.cleanup w1))).
    { intros r w1 Hloop. unfold V2.ocr_directory. rewrite Hexists. simpl.
      fold files. destruct files as [|f files'] eqn:Hf; [contradiction|].
      assert (Hfin : try_finally loop V2.cleanup w = (r, snd (V2.cleanup w1))).
      { eapply try_finally_run; [exact Hloop|]. now rewrite V2_cleanup_run. }
      unfold bind. fold loop. rewrite Hfin. now destruct r. }
    split; [|split].
    + intros v w1 Hloop. now rewrite (Hrun _ _ Hloop).
    + intros e w1 Hloop. now rewrite (Hrun _ _ Hloop).
    + intros r w' H.
      rewrite (Hrun (fst (loop w)) (snd (loop w))) in H
        by now destruct (loop w).
      inversion H; subst.
      exists (snd (loop w)). now rewrite V2_cleanup_run.
  - intros Hfiles. unfold V2.ocr_directory. rewrite Hexists. simpl.
    fold files. now rewrite Hfiles.
Qed.

(** ** The processing lock *)

Lemma inside_ok_loop (image_files : list Pathlib.Path) :
  inside_ok false
    (flat_map (fun img_path => [Gate.BeginOcr (Pathlib.str img_path);
                                Gate.EndOcr]) image_files) = true.
Proof. induction image_files as [|f fs IH]; [reflexivity|exact IH]. Qed.

Lemma batches_ok_start (batches : list (list Pathlib.Path)) :
  batches_ok (Gate.start (map Gate.ocr_batch batches)).
Proof.
  intros i th Hth. unfold Gate.start in Hth. simpl in Hth.
  rewrite map_map in Hth.
  change (map ?f batches) with (f <$> batches) in Hth.
  rewrite list_lookup_fmap in Hth.
  destruct (batches !! i) as [fs|]; [|discriminate].
  inversion Hth; subst. left. split; [reflexivity|].
  eexists. split; [reflexivity|apply inside_ok_loop].
Qed.

(** Another thread is not affected by a step that keeps the lock, nor,
    when it is not in its loop, by one that changes it. *)
Lemma batch_thread_ok_other (l l' : option nat) (i j : nat) (th : Gate.thread) :
  batch_thread_ok l j th ->
  l' = l \/ (l = None \/ l = Some i) /\ j <> i ->
  batch_thread_ok l' j th.
Proof.
  intros [H|[[Hl H]|H]] Hl'.
  - now left.
  - destruct Hl' as [->|[[Hn|Hs] Hij]]; [right; left; now split|congruence|].
    congruence.
  - now right; right.
Qed.

Lemma batches_ok_step (i : nat) (s s' : Gate.state) :
  batches_ok s -> Gate.step i s = Some s' -> batches_ok s'.
Proof.
  intros Hs Hstep. unfold Gate.step in Hstep.
  destruct (Gate.threads s !! i) as [th|] eqn:Hth; [|discriminate].
  assert (Hi : (i < length (Gate.threads s))%nat)
    by (eapply lookup_lt_Some; eauto).
  pose proof (Hs i th Hth) as Hok.
  assert (Hrest : forall l' th',
             batch_thread_ok l' i th' ->
             l' = Gate.lock s \/ Gate.lock s = None \/ Gate.lock s = Some i ->
             batches_ok (Gate.set_thread i th' s l')).
  { intros l' th' Hth' Hl' j thj Hj. simpl in Hj |- *.
    destruct (decide (j = i)) as [->|Hji].
    - rewrite list_lookup_insert_eq in Hj by exact Hi.
      now inversion Hj; subst.
    - rewrite list_lookup_insert_ne in Hj by congruence.
      apply (batch_thread_ok_other (Gate.lock s) l' i); [now apply Hs|].
      destruct Hl' as [->|Hl']; [now left|right; now split]. }
  destruct (Gate.code th) as [|[| |image_path|] rest] eqn:Hcode;
    [discriminate| | | |].
  - (* Acquire *)
    destruct (Gate.lock s) eqn:Hlock; [discriminate|].
    injection Hstep as <-. apply Hrest; [|now right; left].
    destruct Hok as [[Hrec (body & Hbody & Hin)]
                    |[[Hl _]|[Hnil _]]]; [|discriminate|congruence].
    rewrite Hcode in Hbody. inversion Hbody; subst rest.
    right; left. split; [reflexivity|].
    exists body. simpl. rewrite Hrec. now split.
  - (* Release *)
    injection Hstep as <-.
    destruct Hok as [[_ (body & Hbody & _)]
                    |[[Hl (body & Hbody & Hin)]|[Hnil _]]];
      [congruence| |congruence].
    apply Hrest; [|now right; right].
    rewrite Hcode in Hbody.
    destruct body as [|[| | |] body]; simpl in Hin, Hbody;
      try discriminate;
      try (destruct (Gate.recognizing th); discriminate).
    inversion Hbody; subst rest. right; right. simpl. split; [reflexivity|].
    destruct (Gate.recognizing th); [discriminate|reflexivity].
  - (* BeginOcr *)
    injection Hstep as <-. apply Hrest; [|now left].
    destruct Hok as [[_ (body & Hbody & _)]
                    |[[Hl (body & Hbody & Hin)]|[Hnil _]]];
      [congruence| |congruence].
    right; left. split; [exact Hl|].
    rewrite Hcode in Hbody.
    destruct body as [|[| |p|] body]; simpl in Hbody; inversion Hbody; subst.
    exists body. split; [reflexivity|]. simpl in Hin |- *.
    now apply andb_prop in Hin as [_ Hin].
  - (* EndOcr *)
    injection Hstep as <-. apply Hrest; [|now left].
    destruct Hok as [[_ (body & Hbody & _)]
                    |[[Hl (body & Hbody & Hin)]|[Hnil _]]];
      [congruence| |congruence].
    right; left. split; [exact Hl|].
    rewrite Hcode in Hbody.
    destruct body as [|[| |p|] body]; simpl in Hbody; inversion Hbody; subst.
    exists body. split; [reflexivity|]. simpl in Hin |- *.
    now apply andb_prop in Hin as [_ Hin].
Qed.

Lemma batches_ok_run (schedule : list nat) (s s' : Gate.state) :
  batches_ok s -> Gate.run schedule s = Some s' -> batches_ok s'.
Proof.
  revert s. induction schedule as [|i schedule IH]; intros s Hs Hrun;
    simpl in Hrun.
  - now inversion Hrun; subst.
  - destruct (Gate.step i s) as [s1|] eqn:Hstep; [|discriminate].
    eapply IH; [|exact Hrun]. eapply batches_ok_step; eauto.
Qed.

(** Between batches the lock does its work: whatever the schedule, two
    threads that serve batch requests are never inside [ocr_image]
    together. *)
Lemma batches_exclude_each_other
    (batches : list (list Pathlib.Path)) (schedule : list nat)
    (s : Gate.state) (i j : nat) (thi thj : Gate.thread) :
  Gate.run schedule (Gate.start (map Gate.ocr_batch batches)) = Some s ->
  Gate.threads s !! i = Some thi -> Gate.threads s !! j = Some thj ->
  Gate.recognizing thi <> None -> Gate.recognizing thj <> None ->
  i = j.
Proof.
  intros Hrun Hi Hj Hri Hrj.
  assert (Hs : batches_ok s)
    by (eapply batches_ok_run; [apply batches_ok_start|exact Hrun]).
  destruct (Hs i thi Hi) as [[H _]|[[Hli _]|[_ H]]]; try contradiction.
  destruct (Hs j thj Hj) as [[H _]|[[Hlj _]|[_ H]]]; try contradiction.
  congruence.
Qed.

(** C9 fails on the service: a single-image request recognizes its image
    while a batch holds the processing lock and recognizes another one.
    Thread 0 serves [/ocr/batch] on one file, thread 1 serves
    [/ocr/single]; after thread 0 has taken the lock and entered
    [ocr_image], thread 1 enters [ocr_image] too. *)
Theorem single_image_request_overlaps_batch :
  exists s,
    Gate.run [0; 0; 1]%nat
      (Gate.start [Gate.ocr_batch [Fixtures.data "a.png"];
                   Gate.ocr_single "/data/b.png"]) = Some s
    /\ Gate.lock s = Some 0%nat
    /\ Gate.recognizers s = [0; 1]%nat.
Proof. eexists. repeat split. Qed.

(** ** The statements on test data *)

Import Fixtures.

Lemma simple_content_escalation_witness :
  V2.ocr_image E_escalate "/data/digit.png" V2.fresh
  = (Ok {| success := true; latex := "0"; file := "/data/digit.png";
           error := None; method := "easyocr+pix2tex";
           content_size := Some (2, 2); is_simple := Some true |},
     snd (V2.ocr_image E_escalate "/data/digit.png" V2.fresh)) /\
  Service.ocr_image E_scenario "/data/digit.png" resident
  = (Ok {| success := true; latex := "7"; file := "/data/digit.png";
           error := None; method := "easyocr";
           content_size := None; is_simple := Some true |},
     resident).
Proof.
  split.
  - destruct (simple_content_escalation E_escalate "/data/digit.png"
                digit_crop 2 2 5 5) as [HV2 _];
      [vm_compute; reflexivity|vm_compute; reflexivity|].
    destruct (HV2 V2.fresh "  "
                (snd (V2.ocr_simple E_escalate digit_crop V2.fresh)))
      as [Hescalate _]; [vm_compute; reflexivity|].
    apply Hescalate; vm_compute; reflexivity.
  - destruct (simple_content_escalation E_scenario "/data/digit.png"
                digit_crop 2 2 5 5) as [_ HS];
      [vm_compute; reflexivity|vm_compute; reflexivity|].
    destruct (HS resident "7" resident) as [_ Hplain];
      [vm_compute; reflexivity|].
    apply Hplain. vm_compute. discriminate.
Defined.

Lemma ocr_image_catches_exceptions_witness :
  V2.ocr_image E_scenario "/data/missing.png" V2.fresh
  = (Ok (error_result "/data/missing.png"
           "[Errno 2] No such file or directory: '/data/missing.png'"
           (Some (0, 0))),
     V2.fresh) /\
  Service.ocr_image E_out_of_memory "/data/digit.png" resident
  = (Ok (error_result "/data/digit.png" "CUDA out of memory" None), resident).
Proof.
  split.
  - apply (proj1 (ocr_image_catches_exceptions E_scenario "/data/missing.png"
                    FileNotFoundError
                    "[Errno 2] No such file or directory: '/data/missing.png'")).
    apply V2_raises_locating. vm_compute. reflexivity.
  - apply (proj1 (proj2 (ocr_image_catches_exceptions E_out_of_memory
                           "/data/digit.png" RuntimeError "CUDA out of memory"))).
    apply (Service_raises_text _ _ _ _ digit_crop 2 2 5 5);
      vm_compute; reflexivity.
Defined.

Lemma cleanup_idempotent_and_total_witness :
  let w := snd (V2.ensure_pix2tex E_scenario V2.fresh) in
  V2.pix2tex_model (V2.self w) = Some LatexOCR_model /\
  fst (V2.cleanup w) = Ok tt /\
  V2.self (snd (V2.cleanup w)) = V2.init /\
  fst (V2.cleanup (snd (V2.cleanup w))) = Ok tt /\
  V2.self (snd (V2.cleanup (snd (V2.cleanup w)))) = V2.init.
Proof.
  intros w. split; [reflexivity|].
  destruct (cleanup_idempotent_and_total E_scenario w)
    as (H1 & H2 & H3 & H4 & _).
  - apply (reach_ensure_pix2tex E_scenario V2.fresh
             (fst (V2.ensure_pix2tex E_scenario V2.fresh)) w).
    + apply reach_init.
    + vm_compute. reflexivity.
  - repeat split; assumption.
Defined.

Lemma text_adapter_returns_most_confident_witness :
  (exists t,
     V2.ocr_simple E_ties digit_crop V2.fresh
     = (Ok t, snd (V2.ensure_easyocr E_ties V2.fresh))
     /\ picks_best ties t) /\
  (exists t,
     Service.ocr_simple E_ties digit_crop resident = (Ok t, resident)
     /\ picks_best ties t) /\
  best_text ties = "b".
Proof.
  destruct (text_adapter_returns_most_confident E_ties digit_crop
              Reader_model ties) as [HV2 HS]; [vm_compute; reflexivity|].
  split; [|split].
  - apply HV2; vm_compute; reflexivity.
  - apply HS. vm_compute. reflexivity.
  - vm_compute. reflexivity.
Defined.

Lemma locate_misses_content_on_a_line_witness :
  is_content dot 250 1 1 /\
  crop_to_content E_scenario "/data/dot.png" 20 250 = Ok (None, (0, 0, 0, 0)).
Proof.
  assert (Hdark : is_content dot 250 1 1).
  { unfold is_content. simpl. lia. }
  split; [exact Hdark|].
  apply (locate_misses_content_on_a_line E_scenario "/data/dot.png" dot 20 250).
  - vm_compute. reflexivity.
  - exists 1, 1. exact Hdark.
  - left. exists 1. intros x y (Hx & Hy & Hpix). simpl in Hx, Hy.
    assert (Hxs : x = 0 \/ x = 1 \/ x = 2) by lia.
    assert (Hys : y = 0 \/ y = 1 \/ y = 2) by lia.
    destruct Hxs as [->|[->| ->]]; destruct Hys as [->|[->| ->]];
      vm_compute in Hpix; congruence.
Defined.

Lemma three_files_distinct_names :
  NoDup (map Pathlib.name (glob E_scenario "/data" "*.png")).
Proof.
  change (NoDup ["formula.png"; "blank.png"; "digit.png"]).
  repeat constructor; set_solver.
Qed.

Lemma three_files_children f :
  f ∈ glob E_scenario "/data" "*.png" ->
  exists n, f = ([""; "data"] ++ [n])%list.
Proof.
  change (glob E_scenario "/data" "*.png") with three_files.
  unfold three_files, data. intros Hf.
  repeat (apply elem_of_cons in Hf as [->|Hf]; [eexists; reflexivity|]).
  now apply elem_of_nil in Hf.
Qed.

Lemma batch_report_one_entry_per_file_witness :
  exists rs w1,
    V2_batch E_scenario 3 (enumerate (Pathlib.sorted three_files) 1)
      V2.fresh rs w1
    /\ report_matches (Pathlib.sorted three_files) rs scenario_report.
Proof.
  destruct (batch_report_one_entry_per_file E_scenario "/data" "*.png"
              three_files_distinct_names) as [HV2 _].
  apply (HV2 true V2.fresh scenario_report
           (snd (V2.ocr_directory E_scenario "/data" "*.png" true V2.fresh))).
  vm_compute. reflexivity.
Defined.

(** Two files of one name in two subdirectories leave one entry, and a
    [count] of 1 for 2 discovered files. *)
Lemma batch_report_same_name_counterexample :
  exists report w',
    V2.ocr_directory E_same_name "/data" "*/*.png" true V2.fresh
    = (Ok report, w')
    /\ length (glob E_same_name "/data" "*/*.png") = 2%nat
    /\ size (results report) = 1%nat
    /\ count report = 1
    /\ length (errors report) = 1%nat
    /\ count report <> Z.of_nat (length (glob E_same_name "/data" "*/*.png")).
Proof.
  eexists. eexists. split; [vm_compute; reflexivity|].
  repeat split; try (vm_compute; reflexivity).
  vm_compute. discriminate.
Qed.

Lemma batch_runs_in_sorted_order_witness :
  Pathlib.sorted (glob (with_glob E_scenario (fun _ _ => rev three_files))
                    "/data" "*.png")
  = [data "blank.png"; data "digit.png"; data "formula.png"] /\
  V2.ocr_directory (with_glob E_scenario (fun _ _ => rev three_files))
    "/data" "*.png" true V2.fresh
  = V2.ocr_directory E_scenario "/data" "*.png" true V2.fresh /\
  StronglySorted name_le
    (map Pathlib.name (Pathlib.sorted (glob E_scenario "/data" "*.png"))) /\
  StronglySorted name_le (map fst (errors scenario_report)).
Proof.
  destruct (batch_runs_in_sorted_order E_scenario "/data" "*.png")
    as (_ & _ & Henum & _ & _ & Hflat).
  destruct (Henum (fun _ _ => rev three_files)) as (Hfiles & HV2 & _).
  { change (glob E_scenario "/data" "*.png") with three_files.
    symmetry. apply Permutation_rev. }
  destruct (Hflat [""; "data"] three_files_children) as (Hnames & Herrors & _).
  split; [|split; [|split]].
  - etransitivity; [exact Hfiles|]. vm_compute. reflexivity.
  - apply HV2.
  - exact Hnames.
  - apply (Herrors true V2.fresh scenario_report
             (snd (V2.ocr_directory E_scenario "/data" "*.png" true V2.fresh))).
    vm_compute. reflexivity.
Defined.

(** Files in two subdirectories are processed, and listed in [errors],
    in the order of their paths: "z.png" of directory "a" before "a.png"
    of directory "b". *)
Lemma batch_order_crossed_counterexample :
  exists report w',
    V2.ocr_directory E_crossed "/data" "*/*.png" true V2.fresh
    = (Ok report, w')
    /\ map fst (errors report) = ["z.png"; "a.png"]
    /\ ~ StronglySorted name_le (map fst (errors report)).
Proof.
  eexists. eexists. split; [vm_compute; reflexivity|].
  split; [vm_compute; reflexivity|].
  intros Hsorted. vm_compute in Hsorted.
  apply StronglySorted_inv in Hsorted as [_ Hz].
  apply Forall_inv in Hz. vm_compute in Hz. discriminate.
Qed.

Lemma batch_cleanup_after_loop_witness :
  V2.ocr_directory E_interrupt "/data" "*.png" true V2.fresh
  = (Raise KeyboardInterrupt,
     {| V2.self := V2.init;
        V2.trace :=
          [V2.Processing 1 3 "blank.png"; V2.Processing 2 3 "digit.png";
           V2.LoadingEasyOCR; V2.EasyOCRReady;
           V2.Processing 3 3 "formula.png"; V2.LoadingPix2tex;
           V2.Pix2texReady; V2.CleaningUp; V2.ClearGpuMemory] |}) /\
  cleanup_ran_last
    (snd (V2.ocr_directory E_scenario "/data" "*.png" true V2.fresh)) /\
  V2.ocr_directory E_no_files "/data" "*.png" true loaded
  = (Ok empty_report, loaded).
Proof.
  split; [|split].
  - destruct (batch_cleanup_after_loop E_interrupt "/data" "*.png" V2.fresh)
      as [Hsome _]; [reflexivity|].
    destruct Hsome as (_ & Hraise & _).
    + vm_compute. discriminate.
    + rewrite (Hraise KeyboardInterrupt
                 (snd (for_each
                         (enumerate
                            (Pathlib.sorted (glob E_interrupt "/data" "*.png")) 1)
                         (V2.process_file E_interrupt 3) loop_start V2.fresh)));
        vm_compute; reflexivity.
  - destruct (batch_cleanup_after_loop E_scenario "/data" "*.png" V2.fresh)
      as [Hsome _]; [reflexivity|].
    destruct Hsome as (_ & _ & Hlast).
    + vm_compute. discriminate.
    + apply (Hlast (fst (V2.ocr_directory E_scenario "/data" "*.png" true
                           V2.fresh))).
      now destruct (V2.ocr_directory E_scenario "/data" "*.png" true V2.fresh).
  - destruct (batch_cleanup_after_loop E_no_files "/data" "*.png" loaded)
      as [_ Hnone]; [reflexivity|].
    apply Hnone. vm_compute. reflexivity.
Defined.

(** A batch run with [auto_cleanup] on a directory that exists and has no
    matching file returns the empty report and calls nothing: the store
    is unchanged, the formula model stays loaded, and [main] itself, on a
    fresh object, does nothing more. *)
Lemma batch_cleanup_no_files_counterexample :
  path_exists E_no_files "/data" = true /\
  V2.ocr_directory E_no_files "/data" "*.png" true loaded
  = (Ok empty_report, loaded) /\
  V2.pix2tex_model (V2.self loaded) = Some LatexOCR_model /\
  ~ In V2.CleaningUp (V2.trace loaded) /\
  ~ cleanup_ran_last loaded /\
  V2.main_batch_dir E_no_files "/data" false V2.fresh
  = (Ok empty_report, V2.fresh).
Proof.
  repeat split; try (vm_compute; reflexivity).
  - intros H. vm_compute in H.
    repeat (destruct H as [H|H]; [discriminate|]). exact H.
  - intros [w1 H]. rewrite V2_cleanup_run in H.
    apply (f_equal (fun rw => List.last (V2.trace (snd rw)) V2.CleaningUp))
      in H.
    cbn [snd V2.trace] in H.
    change [V2.CleaningUp; V2.ClearGpuMemory]
      with ([V2.CleaningUp] ++ [V2.ClearGpuMemory])%list in H.
    rewrite app_assoc, last_last in H. vm_compute in H. discriminate.
Qed.

(** * Part III: further properties of the code *)

(** ** The locator: what the scan computes *)

(** A loop whose steps only enlarge the state, and whose step at an
    element accounts for that element, accounts for every element. *)
Lemma fold_left_covers {A B} (le : A -> A -> Prop) (R : A -> B -> Prop)
    (f : A -> B -> A) (l : list B) :
  (forall a, le a a) ->
  (forall a b c, le a b -> le b c -> le a c) ->
  (forall a x, In x l -> le a (f a x)) ->
  (forall a x, In x l -> R (f a x) x) ->
  (forall a a' x, le a a' -> R a x -> R a' x) ->
  forall a, le a (fold_left f l a) /\ forall x, In x l -> R (fold_left f l a) x.
Proof.
  intros Hrefl Htrans Hgrow Hstep Hmono.
  induction l as [|x l IH]; intros a; simpl.
  - split; [apply Hrefl|intros x []].
  - destruct IH with (a := f a x) as [Hle Hall].
    + intros a' y Hy. apply Hgrow. now right.
    + intros a' y Hy. apply Hstep. now right.
    + split.
      * eapply Htrans; [apply Hgrow; now left|exact Hle].
      * intros y [<-|Hy]; [|now apply Hall].
        eapply Hmono; [exact Hle|]. apply Hstep. now left.
Qed.

Lemma box_le_refl b : box_le b b.
Proof. unfold box_le. lia. Qed.

Lemma box_le_trans a b c : box_le a b -> box_le b c -> box_le a c.
Proof. unfold box_le. lia. Qed.

Lemma scan_pixel_grows pixels threshold y b x :
  box_le b (scan_pixel pixels threshold y b x).
Proof.
  unfold scan_pixel, box_le.
  destruct (pixels x y <? threshold); simpl; lia.
Qed.

Lemma scan_row_covers pixels threshold w b y :
  box_le b (scan_row pixels threshold w b y) /\
  forall x, In x (range w) -> pixels x y < threshold ->
            in_box (scan_row pixels threshold w b y) x y.
Proof.
  unfold scan_row.
  apply (fold_left_covers box_le
           (fun b x => pixels x y < threshold -> in_box b x y)).
  - apply box_le_refl.
  - apply box_le_trans.
  - intros a x _. apply scan_pixel_grows.
  - intros a x _ Hdark. unfold scan_pixel.
    apply Z.ltb_lt in Hdark. rewrite Hdark. unfold in_box. simpl. lia.
  - intros a a' x Hle Ha Hdark. specialize (Ha Hdark).
    unfold box_le, in_box in *. lia.
Qed.

(** Every content pixel lies within the bounds that the scan leaves. *)
Lemma content_bounds_cover (img : Image) (threshold x y : Z) :
  is_content img threshold x y -> in_box (content_bounds img threshold) x y.
Proof.
  intros (Hx & Hy & Hdark). unfold content_bounds.
  destruct (img_size img) as [w h]. simpl in Hx, Hy.
  refine (proj2 (fold_left_covers box_le
                   (fun b y => forall x, In x (range w) ->
                                         img_load img x y < threshold ->
                                         in_box b x y)
                   (scan_row (img_load img) threshold w) (range h)
                   box_le_refl box_le_trans _ _ _ _) y _ x _ Hdark).
  - intros a y' _. apply scan_row_covers.
  - intros a y' _. apply scan_row_covers.
  - intros a a' y' Hle Ha x' Hx' Hd. specialize (Ha x' Hx' Hd).
    unfold box_le, in_box in *. lia.
  - now apply in_range.
  - now apply in_range.
Qed.

(** The bounds are those of before the scan, or all four are attained. *)
Lemma content_bounds_attained (img : Image) (threshold : Z) :
  content_bounds img threshold = no_bounds img
  \/ attained img threshold (content_bounds img threshold).
Proof.
  apply (content_bounds_invariant img threshold
           (fun b => b = no_bounds img \/ attained img threshold b)).
  - intros b x y Hc Hb. right.
    pose proof Hc as (Hx & Hy & _).
    unfold attained. simpl.
    destruct Hb as [->|(Hminx & Hmaxx & Hminy & Hmaxy)].
    + unfold no_bounds. simpl.
      rewrite (Z.min_r _ x), (Z.min_r _ y), (Z.max_r 0 x), (Z.max_r 0 y)
        by lia.
      repeat split; eauto.
    + repeat split.
      * destruct (Z.min_spec (min_x b) x) as [[_ ->]|[_ ->]]; eauto.
      * destruct (Z.max_spec (max_x b) x) as [[_ ->]|[_ ->]]; eauto.
      * destruct (Z.min_spec (min_y b) y) as [[_ ->]|[_ ->]]; eauto.
      * destruct (Z.max_spec (max_y b) y) as [[_ ->]|[_ ->]]; eauto.
  - now left.
Qed.

(** What [crop_image] returns with a crop. *)
Lemma crop_image_some (img : Image) (padding threshold : Z)
    (c : Image) (rw rh pw ph : Z) :
  crop_image img padding threshold = (Some c, (rw, rh, pw, ph)) ->
  let b := content_bounds img threshold in
  let w := fst (img_size img) in
  let h := snd (img_size img) in
  min_x b < max_x b /\ min_y b < max_y b /\
  rw = max_x b - min_x b /\ rh = max_y b - min_y b /\
  pw = Z.min w (max_x b + padding) - Z.max 0 (min_x b - padding) /\
  ph = Z.min h (max_y b + padding) - Z.max 0 (min_y b - padding) /\
  c = crop img (Z.max 0 (min_x b - padding)) (Z.max 0 (min_y b - padding))
        (Z.min w (max_x b + padding)) (Z.min h (max_y b + padding)).
Proof.
  unfold crop_image. destruct (img_size img) as [w h]. simpl.
  destruct (max_x (content_bounds img threshold)
              <=? min_x (content_bounds img threshold)) eqn:Hx;
    [discriminate|].
  destruct (max_y (content_bounds img threshold)
              <=? min_y (content_bounds img threshold)) eqn:Hy;
    [discriminate|].
  simpl. intros H. inversion H; subst.
  apply Z.leb_gt in Hx, Hy. repeat split; assumption.
Qed.

(** Opening the image is the only way [crop_to_content] fails. *)
Lemma crop_to_content_open (E : Env) (image_path : string) (img : Image)
    (padding threshold : Z) :
  Image_open E image_path = Ok img ->
  crop_to_content E image_path padding threshold
    = Ok (crop_image (convert L img) padding threshold).
Proof. intros H. unfold crop_to_content. now rewrite H. Qed.

(** The same through [crop_to_content]. *)
Lemma crop_to_content_some (E : Env) (image_path : string) (img : Image)
    (padding threshold : Z) (c : Image) (rw rh pw ph : Z) :
  Image_open E image_path = Ok img ->
  crop_to_content E image_path padding threshold
    = Ok (Some c, (rw, rh, pw, ph)) ->
  let b := content_bounds img threshold in
  let w := fst (img_size img) in
  let h := snd (img_size img) in
  min_x b < max_x b /\ min_y b < max_y b /\
  rw = max_x b - min_x b /\ rh = max_y b - min_y b /\
  pw = Z.min w (max_x b + padding) - Z.max 0 (min_x b - padding) /\
  ph = Z.min h (max_y b + padding) - Z.max 0 (min_y b - padding) /\
  c = crop (convert L img)
        (Z.max 0 (min_x b - padding)) (Z.max 0 (min_y b - padding))
        (Z.min w (max_x b + padding)) (Z.min h (max_y b + padding)).
Proof.
  intros Hopen H. rewrite (crop_to_content_open _ _ _ _ _ Hopen) in H.
  injection H as H. exact (crop_image_some _ _ _ _ _ _ _ _ H).
Qed.

(** Without content over two columns and two rows there is no crop. *)
Lemma crop_image_none (img : Image) (padding threshold : Z) :
  max_x (content_bounds img threshold) <= min_x (content_bounds img threshold)
  \/ max_y (content_bounds img threshold)
       <= min_y (content_bounds img threshold) ->
  crop_image img padding threshold = (None, (0, 0, 0, 0)).
Proof.
  intros H. unfold crop_image. destruct (img_size img) as [w h].
  destruct (max_x (content_bounds img threshold)
              <=? min_x (content_bounds img threshold)) eqn:Hx;
    [reflexivity|].
  destruct (max_y (content_bounds img threshold)
              <=? min_y (content_bounds img threshold)) eqn:Hy;
    [reflexivity|].
  apply Z.leb_gt in Hx, Hy. lia.
Qed.

(** With bounds apart in both directions there is a crop. *)
Lemma crop_image_found (img : Image) (padding threshold : Z) :
  min_x (content_bounds img threshold) < max_x (content_bounds img threshold) ->
  min_y (content_bounds img threshold) < max_y (content_bounds img threshold) ->
  exists c dims, crop_image img padding threshold = (Some c, dims).
Proof.
  intros Hx Hy. unfold crop_image. destruct (img_size img) as [w h].
  apply Z.leb_gt in Hx, Hy. rewrite Hx, Hy. simpl. eauto.
Qed.

(** On an image that has a width, bounds apart in x are attained. *)
Lemma content_bounds_apart_attained (img : Image) (threshold : Z) :
  0 <= fst (img_size img) ->
  min_x (content_bounds img threshold) < max_x (content_bounds img threshold) ->
  attained img threshold (content_bounds img threshold).
Proof.
  intros Hw Hx.
  destruct (content_bounds_attained img threshold) as [Hnone|Hatt];
    [|exact Hatt].
  rewrite Hnone in Hx. unfold no_bounds in Hx. simpl in Hx. lia.
Qed.

Lemma attained_inside (img : Image) (threshold : Z) (b : bounds) :
  attained img threshold b ->
  0 <= min_x b < fst (img_size img) /\ 0 <= max_x b < fst (img_size img) /\
  0 <= min_y b < snd (img_size img) /\ 0 <= max_y b < snd (img_size img).
Proof.
  intros ([y1 (H1 & _)] & [y2 (H2 & _)] & [x3 (_ & H3 & _)] & [x4 (_ & H4 & _)]).
  auto.
Qed.

(** X1: on an image that opens, crop_to_content returns a crop when
    pixels darker than the threshold lie in two different columns and in
    two different rows, and (None, (0, 0, 0, 0)) in every other case. *)
Theorem crop_to_content_finds_spanning_content (E : Env)
    (image_path : string) (img : Image) (padding threshold : Z) :
  Image_open E image_path = Ok img ->
  0 <= fst (img_size img) ->
  (spans_columns img threshold /\ spans_rows img threshold ->
   exists c dims,
     crop_to_content E image_path padding threshold = Ok (Some c, dims)) /\
  (~ (spans_columns img threshold /\ spans_rows img threshold) ->
   crop_to_content E image_path padding threshold = Ok (None, (0, 0, 0, 0))).
Proof.
  intros Hopen Hw. rewrite (crop_to_content_open _ _ _ padding threshold Hopen).
  split.
  - intros [(x1 & y1 & x2 & y2 & Ha & Hb & Hlt)
            (x3 & y3 & x4 & y4 & Hc & Hd & Hlt')].
    apply content_bounds_cover in Ha, Hb, Hc, Hd.
    unfold in_box in *.
    destruct (crop_image_found (convert L img) padding threshold)
      as (c & dims & Hcrop).
    + change (content_bounds (convert L img) threshold)
        with (content_bounds img threshold). lia.
    + change (content_bounds (convert L img) threshold)
        with (content_bounds img threshold). lia.
    + exists c, dims. now rewrite Hcrop.
  - intros Hno. f_equal. apply crop_image_none.
    change (content_bounds (convert L img) threshold)
      with (content_bounds img threshold).
    destruct (Z_lt_le_dec (min_x (content_bounds img threshold))
                (max_x (content_bounds img threshold))) as [Hx|Hx];
      [|now left].
    destruct (Z_lt_le_dec (min_y (content_bounds img threshold))
                (max_y (content_bounds img threshold))) as [Hy|Hy];
      [|now right].
    exfalso. apply Hno.
    destruct (content_bounds_apart_attained img threshold Hw Hx)
      as ([ya Ha] & [yb Hb] & [xc Hc] & [xd Hd]).
    split.
    + exists (min_x (content_bounds img threshold)), ya,
             (max_x (content_bounds img threshold)), yb. auto.
    + exists xc, (min_y (content_bounds img threshold)),
             xd, (max_y (content_bounds img threshold)). auto.
Qed.

Lemma crop_to_content_finds_spanning_content_witness :
  exists c dims,
    crop_to_content Fixtures.E_scenario "/data/digit.png" 20 250
      = Ok (Some c, dims).
Proof.
  refine (proj1 (crop_to_content_finds_spanning_content Fixtures.E_scenario
                   "/data/digit.png" Fixtures.digit 20 250 _ _) _).
  - reflexivity.
  - simpl. lia.
  - split.
    + exists 1, 1, 3, 1. unfold is_content. simpl. lia.
    + exists 1, 1, 1, 3. unfold is_content. simpl. lia.
Defined.

(** X2: the raw content size that crop_to_content returns is the distance
    between the outermost content columns and between the outermost
    content rows: each of the four bounds is the coordinate of a content
    pixel, every content pixel lies within them, and both distances are
    positive. *)
Theorem crop_to_content_raw_size_is_extent (E : Env) (image_path : string)
    (img : Image) (padding threshold : Z) (c : Image) (rw rh pw ph : Z) :
  Image_open E image_path = Ok img ->
  0 <= fst (img_size img) ->
  crop_to_content E image_path padding threshold
    = Ok (Some c, (rw, rh, pw, ph)) ->
  exists b,
    attained img threshold b /\
    (forall x y, is_content img threshold x y -> in_box b x y) /\
    rw = max_x b - min_x b /\ rh = max_y b - min_y b /\ 0 < rw /\ 0 < rh.
Proof.
  intros Hopen Hw H.
  destruct (crop_to_content_some _ _ _ _ _ _ _ _ _ _ Hopen H)
    as (Hx & Hy & -> & -> & _).
  exists (content_bounds img threshold).
  split; [now apply content_bounds_apart_attained|].
  split; [intros x y Hc; now apply content_bounds_cover|]. lia.
Qed.

Lemma crop_to_content_raw_size_is_extent_witness :
  exists b,
    attained Fixtures.digit 250 b /\
    (forall x y, is_content Fixtures.digit 250 x y -> in_box b x y) /\
    2 = max_x b - min_x b /\ 2 = max_y b - min_y b /\ 0 < 2 /\ 0 < 2.
Proof.
  apply (crop_to_content_raw_size_is_extent Fixtures.E_scenario
           "/data/digit.png" Fixtures.digit 20 250 Fixtures.digit_crop
           2 2 5 5).
  - reflexivity.
  - simpl. lia.
  - vm_compute. reflexivity.
Defined.

(** X3: with a padding that is not negative, the crop that
    crop_to_content returns is a grayscale image of the padded size that
    it reports; the padded size is at least the raw size, at most the raw
    size plus twice the padding, and never more than the image. *)
Theorem crop_to_content_padded_size (E : Env) (image_path : string)
    (img : Image) (padding threshold : Z) (c : Image) (rw rh pw ph : Z) :
  Image_open E image_path = Ok img ->
  0 <= fst (img_size img) ->
  0 <= padding ->
  crop_to_content E image_path padding threshold
    = Ok (Some c, (rw, rh, pw, ph)) ->
  img_mode c = L /\ img_size c = (pw, ph) /\
  rw <= pw <= rw + 2 * padding /\ rh <= ph <= rh + 2 * padding /\
  pw <= fst (img_size img) /\ ph <= snd (img_size img).
Proof.
  intros Hopen Hw Hpad H.
  destruct (crop_to_content_some _ _ _ _ _ _ _ _ _ _ Hopen H)
    as (Hx & Hy & -> & -> & -> & -> & ->).
  pose proof (attained_inside _ _ _
                (content_bounds_apart_attained img threshold Hw Hx))
    as (? & ? & ? & ?).
  simpl. repeat split; lia.
Qed.

Lemma crop_to_content_padded_size_witness :
  img_mode Fixtures.digit_crop = L /\ img_size Fixtures.digit_crop = (5, 5) /\
  2 <= 5 <= 2 + 2 * 20 /\ 2 <= 5 <= 2 + 2 * 20 /\
  5 <= fst (img_size Fixtures.digit) /\ 5 <= snd (img_size Fixtures.digit).
Proof.
  apply (crop_to_content_padded_size Fixtures.E_scenario "/data/digit.png"
           Fixtures.digit 20 250 Fixtures.digit_crop 2 2 5 5).
  - reflexivity.
  - simpl. lia.
  - lia.
  - vm_compute. reflexivity.
Defined.

(** X4: with a padding of at least one pixel, the crop that
    crop_to_content returns shows a window of the image that contains
    every content pixel. *)
Theorem crop_to_content_keeps_all_content (E : Env) (image_path : string)
    (img : Image) (padding threshold : Z) (c : Image) (rw rh pw ph : Z) :
  Image_open E image_path = Ok img ->
  0 <= fst (img_size img) ->
  1 <= padding ->
  crop_to_content E image_path padding threshold
    = Ok (Some c, (rw, rh, pw, ph)) ->
  exists ox oy,
    (forall x y, img_load c x y = img_load img (ox + x) (oy + y)) /\
    (forall x y, is_content img threshold x y ->
                 is_content c threshold (x - ox) (y - oy)).
Proof.
  intros Hopen Hw Hpad H.
  destruct (crop_to_content_some _ _ _ _ _ _ _ _ _ _ Hopen H)
    as (Hx & Hy & _ & _ & _ & _ & ->).
  pose proof (attained_inside _ _ _
                (content_bounds_apart_attained img threshold Hw Hx))
    as (? & ? & ? & ?).
  exists (Z.max 0 (min_x (content_bounds img threshold) - padding)),
         (Z.max 0 (min_y (content_bounds img threshold) - padding)).
  split; [reflexivity|].
  intros x y Hc. pose proof (content_bounds_cover _ _ _ _ Hc) as [? ?].
  destruct Hc as (? & ? & Hdark).
  unfold is_content. simpl.
  replace (Z.max 0 (min_x (content_bounds img threshold) - padding)
           + (x - Z.max 0 (min_x (content_bounds img threshold) - padding)))
    with x by lia.
  replace (Z.max 0 (min_y (content_bounds img threshold) - padding)
           + (y - Z.max 0 (min_y (content_bounds img threshold) - padding)))
    with y by lia.
  repeat split; try lia.
Qed.

Lemma crop_to_content_keeps_all_content_witness :
  exists ox oy,
    (forall x y, img_load Fixtures.digit_crop x y
                 = img_load Fixtures.digit (ox + x) (oy + y)) /\
    (forall x y, is_content Fixtures.digit 250 x y ->
                 is_content Fixtures.digit_crop 250 (x - ox) (y - oy)).
Proof.
  apply (crop_to_content_keeps_all_content Fixtures.E_scenario
           "/data/digit.png" Fixtures.digit 20 250 Fixtures.digit_crop
           2 2 5 5).
  - reflexivity.
  - simpl. lia.
  - lia.
  - vm_compute. reflexivity.
Defined.

(** X5: with padding 0 the crop that crop_to_content returns has the raw
    size and stops short of the content: a content pixel lies in the
    column just right of the crop, and one in the row just below it. *)
Theorem crop_to_content_without_padding_cuts_content (E : Env)
    (image_path : string) (img : Image) (threshold : Z) (c : Image)
    (rw rh pw ph : Z) :
  Image_open E image_path = Ok img ->
  0 <= fst (img_size img) ->
  crop_to_content E image_path 0 threshold = Ok (Some c, (rw, rh, pw, ph)) ->
  pw = rw /\ ph = rh /\ img_size c = (rw, rh) /\
  exists ox oy,
    (forall x y, img_load c x y = img_load img (ox + x) (oy + y)) /\
    (exists y, is_content img threshold (ox + rw) y) /\
    (exists x, is_content img threshold x (oy + rh)).
Proof.
  intros Hopen Hw H.
  destruct (crop_to_content_some _ _ _ _ _ _ _ _ _ _ Hopen H)
    as (Hx & Hy & -> & -> & -> & -> & ->).
  pose proof (content_bounds_apart_attained img threshold Hw Hx) as Hatt.
  pose proof (attained_inside _ _ _ Hatt) as (? & ? & ? & ?).
  destruct Hatt as (_ & [y Hmaxx] & _ & [x Hmaxy]).
  simpl.
  rewrite !Z.add_0_r, !Z.sub_0_r.
  rewrite (Z.max_r 0 (min_x _)), (Z.max_r 0 (min_y _)) by lia.
  rewrite (Z.min_r _ (max_x _)), (Z.min_r _ (max_y _)) by lia.
  repeat split.
  exists (min_x (content_bounds img threshold)),
         (min_y (content_bounds img threshold)).
  split; [reflexivity|]. split.
  - exists y.
    now replace (min_x (content_bounds img threshold)
                 + (max_x (content_bounds img threshold)
                    - min_x (content_bounds img threshold)))
      with (max_x (content_bounds img threshold)) by lia.
  - exists x.
    now replace (min_y (content_bounds img threshold)
                 + (max_y (content_bounds img threshold)
                    - min_y (content_bounds img threshold)))
      with (max_y (content_bounds img threshold)) by lia.
Qed.

Lemma crop_to_content_without_padding_cuts_content_witness :
  2 = 2 /\ 2 = 2 /\
  img_size (crop (convert L Fixtures.digit) 1 1 3 3) = (2, 2) /\
  exists ox oy,
    (forall x y, img_load (crop (convert L Fixtures.digit) 1 1 3 3) x y
                 = img_load Fixtures.digit (ox + x) (oy + y)) /\
    (exists y, is_content Fixtures.digit 250 (ox + 2) y) /\
    (exists x, is_content Fixtures.digit 250 x (oy + 2)).
Proof.
  apply (crop_to_content_without_padding_cuts_content Fixtures.E_scenario
           "/data/digit.png" Fixtures.digit 250
           (crop (convert L Fixtures.digit) 1 1 3 3) 2 2 2 2).
  - reflexivity.
  - simpl. lia.
  - vm_compute. reflexivity.
Defined.

(** ** The classifier: binary64 against exact arithmetic *)

Lemma forallb_range (p : Z -> bool) (n : Z) :
  forallb p (range n) = true -> forall x, 0 <= x < n -> p x = true.
Proof.
  intros H x Hx. rewrite forallb_forall in H. apply H. now apply in_range.
Qed.

Lemma all_pairs_spec (p : Z -> Z -> bool) (lim : Z -> Z) (n : Z) :
  all_pairs p lim n = true ->
  forall w h, 0 < w <= n -> 0 < h <= lim w -> p w h = true.
Proof.
  unfold all_pairs. intros H w h Hw Hh.
  pose proof (forallb_range _ _ H (w - 1) ltac:(lia)) as Hrow.
  simpl in Hrow. replace (w - 1 + 1) with w in Hrow by lia.
  pose proof (forallb_range _ _ Hrow (h - 1) ltac:(lia)) as Hcell.
  simpl in Hcell. now replace (h - 1 + 1) with h in Hcell by lia.
Qed.

(** The classifier agrees with the exact rule on each of the 43505 sizes
    that pass a size test. *)
Lemma agrees_on_small_sizes : all_pairs agrees height_limit 4999 = true.
Proof. vm_compute. reflexivity. Qed.

Lemma agrees_small (w h : Z) :
  0 < w -> 0 < h ->
  (w * h <? 5000) || ((w <? 80) && (h <? 80)) = true ->
  agrees w h = true.
Proof.
  intros Hw Hh Hsize.
  assert (Hwlim : w < 5000).
  { apply orb_true_iff in Hsize as [Ha|Hd].
    - apply Z.ltb_lt in Ha. nia.
    - apply andb_true_iff in Hd as [Hd _]. apply Z.ltb_lt in Hd. lia. }
  assert (Hhlim : h <= height_limit w).
  { unfold height_limit. apply orb_true_iff in Hsize as [Ha|Hd].
    - apply Z.ltb_lt in Ha.
      assert (h <= 4999 / w) by (apply Z.div_le_lower_bound; lia). lia.
    - apply andb_true_iff in Hd as [Hd1 Hd2]. rewrite Hd1.
      apply Z.ltb_lt in Hd2. lia. }
  apply (all_pairs_spec agrees height_limit 4999 agrees_on_small_sizes); lia.
Qed.

(** X6: on every content size with positive sides, is_simple_content with
    the default thresholds, which computes the aspect ratio in binary64,
    answers exactly as the rule in integer arithmetic: simple when
    7 * h <= 20 * w and w <= 2 * h, and the area is below 5000 or both
    sides are below 80. *)
Theorem is_simple_content_decides_exactly (w h : Z) :
  0 < w -> 0 < h ->
  Classifier.is_simple_content_default w h = exact_rule w h.
Proof.
  intros Hw Hh.
  destruct ((w * h <? 5000) || ((w <? 80) && (h <? 80))) eqn:Hsize.
  - apply eqb_prop. now apply agrees_small.
  - unfold exact_rule. rewrite Hsize, andb_false_r.
    apply orb_false_iff in Hsize as [Ha Hd].
    unfold Classifier.is_simple_content_default, Classifier.is_simple_content.
    cbv zeta. rewrite Ha, Hd. simpl.
    destruct (h =? 0) eqn:Hz; [apply Z.eqb_eq in Hz; lia|].
    repeat match goal with
           | |- context [if ?c then _ else _] => destruct c
           end; reflexivity.
Qed.

Lemma is_simple_content_decides_exactly_witness :
  Classifier.is_simple_content_default 7 20 = exact_rule 7 20.
Proof. apply is_simple_content_decides_exactly; lia. Defined.

(** ** The dispatcher: every way of returning *)

Lemma ret_pair_inv {St A B} (a a' : A) (b b' : B) (s s' : St) :
  ret (a, b) s = (Ok (a', b'), s') -> a = a' /\ b = b' /\ s = s'.
Proof. intros H. inversion H. auto. Qed.

(** [HybridOCR.ocr_image] returns in one of the ways of [V2_returns]. *)
Lemma V2_ocr_image_returns E image_path w r w' :
  V2.ocr_image E image_path w = (Ok r, w') -> V2_returns E image_path w r w'.
Proof.
  unfold V2.ocr_image, try_except.
  destruct (V2.ocr_image_body E image_path w) as [[a|[cls msg|]] s1] eqn:Hbody;
    intros H; inversion H; subst; clear H.
  - unfold V2.ocr_image_body in Hbody.
    destruct (crop_to_content E image_path 20 250)
      as [[[cropped|] [[[cw ch] pw] ph]]|e0] eqn:Hloc.
    + rewrite (bind_ok _ _ w _ w (lift_run _ w)) in Hbody.
      destruct (Classifier.is_simple_content_default cw ch) eqn:Hs.
      * apply bind_inv_ok in Hbody as ([text how] & w2 & Htm & Hret).
        apply ret_inv in Hret as [<- <-].
        apply bind_inv_ok in Htm as (t & w3 & Ht & Htm).
        apply bind_inv_ok in Htm as ([text' how'] & w4 & Hesc & Hret).
        rewrite digit_test_same in Hret.
        apply ret_pair_inv in Hret as (<- & <- & <-).
        destruct (is_empty (strip t)) eqn:Hempty.
        -- apply is_empty_true in Hempty.
           apply bind_inv_ok in Hesc as ([] & w5 & Hemit & Hesc).
           apply bind_inv_ok in Hesc as (u & w6 & Hu & Hret).
           apply ret_pair_inv in Hret as (<- & <- & <-).
           eapply V2_returns_escalated; eauto.
           replace (snd (V2.emit V2.EasyOCREmpty w3)) with w5; [exact Hu|].
           unfold V2.emit, modify in *. now inversion Hemit.
        -- apply is_empty_false in Hempty.
           apply ret_pair_inv in Hesc as (<- & <- & <-).
           eapply V2_returns_text; eauto.
      * apply bind_inv_ok in Hbody as ([text how] & w2 & Htm & Hret).
        apply ret_inv in Hret as [<- <-].
        apply bind_inv_ok in Htm as (u & w3 & Hu & Hret).
        apply ret_pair_inv in Hret as (<- & <- & <-).
        eapply V2_returns_formula; eauto.
    + rewrite (bind_ok _ _ w _ w (lift_run _ w)) in Hbody.
      apply ret_inv in Hbody as [<- <-].
      eapply V2_returns_none; eauto.
    + rewrite (bind_raise _ _ w _ w (lift_run _ w)) in Hbody. discriminate.
  - apply V2_body_raises in Hbody. now apply V2_returns_error with (cls := cls).
Qed.

(** [OCRService.ocr_image] returns in one of the ways of
    [Service_returns]. *)
Lemma Service_ocr_image_returns E image_path w r w' :
  Service.ocr_image E image_path w = (Ok r, w') ->
  Service_returns E image_path w r w'.
Proof.
  unfold Service.ocr_image, try_except.
  destruct (Service.ocr_image_body E image_path w)
    as [[a|[cls msg|]] s1] eqn:Hbody;
    intros H; inversion H; subst; clear H.
  - unfold Service.ocr_image_body in Hbody.
    destruct (crop_to_content E image_path 20 250)
      as [[[cropped|] [[[cw ch] pw] ph]]|e0] eqn:Hloc.
    + rewrite (bind_ok _ _ w _ w (lift_run _ w)) in Hbody.
      destruct (Classifier.is_simple_content_default cw ch) eqn:Hs.
      * apply bind_inv_ok in Hbody as ([text how] & w2 & Htm & Hret).
        apply ret_inv in Hret as [<- <-].
        apply bind_inv_ok in Htm as (t & w3 & Ht & Htm).
        apply bind_inv_ok in Htm as ([text' how'] & w4 & Hesc & Hret).
        apply ret_pair_inv in Hret as (<- & <- & <-).
        destruct (is_empty (strip t)) eqn:Hempty.
        -- apply is_empty_true in Hempty.
           apply bind_inv_ok in Hesc as (u & w6 & Hu & Hret).
           apply ret_pair_inv in Hret as (<- & <- & <-).
           eapply Service_returns_escalated; eauto.
        -- apply is_empty_false in Hempty.
           apply ret_pair_inv in Hesc as (<- & <- & <-).
           eapply Service_returns_text; eauto.
      * apply bind_inv_ok in Hbody as ([text how] & w2 & Htm & Hret).
        apply ret_inv in Hret as [<- <-].
        apply bind_inv_ok in Htm as (u & w3 & Hu & Hret).
        apply ret_pair_inv in Hret as (<- & <- & <-).
        eapply Service_returns_formula; eauto.
    + rewrite (bind_ok _ _ w _ w (lift_run _ w)) in Hbody.
      apply ret_inv in Hbody as [<- <-].
      eapply Service_returns_none; eauto.
    + rewrite (bind_raise _ _ w _ w (lift_run _ w)) in Hbody. discriminate.
  - apply Service_body_raises in Hbody.
    now apply Service_returns_error with (cls := cls).
Qed.

(** X7: every result that ocr_image returns, in the one-shot script and
    in the service, is for the requested file and has one of five shapes:
    a success by "easyocr" or by "easyocr+pix2tex" flagged simple, a
    success by "pix2tex" flagged not simple, each without an error; or a
    failure with empty text and no flag, by "none" with the error
    "No content found" or by "error" with a message. *)
Theorem ocr_image_result_well_formed (E : Env) (image_path : string) :
  (forall w r w',
     V2.ocr_image E image_path w = (Ok r, w') -> well_formed image_path r) /\
  (forall w r w',
     Service.ocr_image E image_path w = (Ok r, w') ->
     well_formed image_path r).
Proof.
  split; intros w r w' H.
  - apply V2_ocr_image_returns in H.
    destruct H; unfold well_formed; simpl; auto 10.
    split; [reflexivity|]. repeat split. right. eauto.
  - apply Service_ocr_image_returns in H.
    destruct H; unfold well_formed; simpl; auto 10.
    split; [reflexivity|]. repeat split. right. eauto.
Qed.

Lemma ocr_image_result_well_formed_witness :
  well_formed "/data/digit.png"
    (success_result "/data/digit.png" "7" "easyocr" (Some (2, 2)) true).
Proof.
  apply (proj1 (ocr_image_result_well_formed E_scenario "/data/digit.png")
           V2.fresh _ (snd (V2.ocr_image E_scenario "/data/digit.png" V2.fresh))).
  vm_compute. reflexivity.
Defined.
